(** * Hardware trigger coordination with an external stimulus peer

  A shallow embedding of

  - [sashimi/hardware/external_trigger/stytra.py]
    ([StytraComm.trigger_and_receive_duration]) and
  - [sashimi/processes/external_communication.py]
    ([ExternalComm.trigger_condition], [ExternalComm.run]).

  Python values that travel over the wire are an inductive type, Python
  floats are IEEE 754 binary64 values ([spec_float] at precision 53),
  exceptions are a result type, and the effects of the two methods (socket
  life cycle, queue traffic, signal writes, log lines) are recorded in a
  trace threaded through a small state-and-exception monad. *)

From Stdlib Require Import ZArith Bool List Lia.
From Stdlib Require Import Floats.SpecFloat.
From stdpp Require Import base option list gmap strings pretty.

Set Warnings "-register-all".


(** ** Python values, exceptions and the [float] constructor *)

Module Py.

(** The exceptions the two methods can meet. *)
Inductive exn : Type :=
| TypeError
| ValueError
| OverflowError
| JSONDecodeError
| ZMQError
| UnboundLocalError
| UnicodeDecodeError
| UnicodeEncodeError
| AttributeError.

(** How a call ends: with a value, with an exception, or not at all, when
    it waits for something that never comes. *)
Inductive result (A : Type) : Type :=
| Return (a : A)
| Raise (e : exn)
| Blocks.
Arguments Return {A} a.
Arguments Raise {A} e.
Arguments Blocks {A}.

(** What [json.loads] can produce, and what [send_json] can serialise.
    Python's decoder also accepts the literals [NaN], [Infinity] and
    [-Infinity], so a decoded float need not be finite. *)
Inductive value : Type :=
| VNone
| VBool (b : bool)
| VInt (z : Z)
| VFloat (f : spec_float)
| VStr (s : string)
| VList (l : list value)
| VDict (d : gmap string value).

(** Truth value of an object in an [if]. *)
Definition truthy (v : value) : bool :=
  match v with
  | VNone => false
  | VBool b => b
  | VInt z => negb (z =? 0)%Z
  | VFloat (S754_zero _) => false
  | VFloat _ => true
  | VStr s => negb (String.eqb s "")%string
  | VList l => match l with [] => false | _ => true end
  | VDict d => negb (Nat.eqb (size d) 0)
  end.

(** [math.isfinite] *)
Definition isfinite (f : spec_float) : bool :=
  match f with
  | S754_zero _ | S754_finite _ _ _ => true
  | S754_infinity _ | S754_nan => false
  end.

(** [float(n)] for an [int]: round to nearest, ties to even, at binary64;
    a magnitude that rounds beyond the largest double is an
    [OverflowError]. *)
Definition float_of_int (z : Z) : result spec_float :=
  match binary_normalize 53 1024 z 0%Z false with
  | S754_infinity _ | S754_nan => Raise OverflowError
  | f => Return f
  end.

Section Float.
(** The grammar of [float(str)] lives in the interpreter; it is taken as
    given. [None] stands for the [ValueError] of an unparsable string. *)
Variable float_of_str : string -> option spec_float.

(** The built-in [float(x)]. *)
Definition float (x : value) : result spec_float :=
  match x with
  | VFloat f => Return f
  | VInt z => float_of_int z
  | VBool b => float_of_int (if b then 1%Z else 0%Z)
  | VStr s =>
      match float_of_str s with
      | Some f => Return f
      | None => Raise ValueError
      end
  | VNone | VList _ | VDict _ => Raise TypeError
  end.
End Float.

End Py.

(** ** A state-and-exception monad

    A computation reads and writes a store of type [S] and either returns a
    value or raises. The store survives a raise, so a handler and a cleanup
    block see what was done before the exception. A computation that blocks
    never reaches what follows it, handler and cleanup included. *)

Module Eff.
Import Py.

Definition M (S A : Type) : Type := S -> result A * S.

Definition ret {S A : Type} (a : A) : M S A := fun s => (Return a, s).

Definition bind {S A B : Type} (m : M S A) (k : A -> M S B) : M S B :=
  fun s =>
    match m s with
    | (Return a, s') => k a s'
    | (Raise e, s') => (Raise e, s')
    | (Blocks, s') => (Blocks, s')
    end.

#[global] Instance M_ret {S : Type} : MRet (M S) := @ret S.
#[global] Instance M_bind {S : Type} : MBind (M S) := fun A B k m => bind m k.

Definition get {S : Type} : M S S := fun s => (Return s, s).
Definition modify {S : Type} (f : S -> S) : M S unit := fun s => (Return tt, f s).

(** A value or an exception computed outside the store. *)
Definition lift {S A : Type} (r : result A) : M S A := fun s => (r, s).

(** [try: m  except Exception: h] *)
Definition try_except {S A : Type} (m : M S A) (h : exn -> M S A) : M S A :=
  fun s =>
    match m s with
    | (Return a, s') => (Return a, s')
    | (Raise e, s') => h e s'
    | (Blocks, s') => (Blocks, s')
    end.

(** [try: m  finally: c], which is also how a [with] block leaves: the
    cleanup runs on both exits and the exception, if any, goes on. *)
Definition finally {S A : Type} (m : M S A) (c : S -> S) : M S A :=
  fun s =>
    match m s with
    | (Blocks, s') => (Blocks, s')
    | (r, s') => (r, c s')
    end.

End Eff.

(** ** [StytraComm]: one request/reply exchange over a fresh socket *)

Module Stytra.
Import Py Eff.

(** What the call does to the outside world, in order. *)
Inductive zmq_event : Type :=
| ContextNew
| SocketOpen
| Connect (address : string)
| SendJson (config : value)
| Poll (timeout_ms : Z)
| RecvJson
| SocketClose
| ContextDestroy.

(** How the network, the peer and the console behave during one call.

    - [ConnectFails e]: [connect] raises [e], on an address the library
      rejects.
    - [SendFails e]: [send_json] raises [e], on a payload that is not
      serialisable.
    - [NoReply]: the request reaches the peer and nothing comes back within
      the timeout; [poll] returns empty.
    - [Undelivered]: no peer ever takes the request. [poll] returns empty,
      the closed socket keeps the request (the default linger is
      unbounded), and [destroy()] waits for its delivery without end.
    - [Undecodable]: a reply arrives whose body is not a JSON document;
      [recv_json] raises a [JSONDecodeError].
    - [Unreadable e]: a reply arrives on which [recv_json] raises another
      exception [e]: a [UnicodeDecodeError] on a body that is not UTF-8, a
      [ValueError] on an integer longer than the interpreter converts.
    - [Unprintable s]: [recv_json] returns the bare string [s], which the
      console cannot encode (it holds a lone surrogate); the [print] of
      line 25 raises a [UnicodeEncodeError].
    - [Reply body]: [recv_json] returns [body] and line 25 prints it. *)
Inductive exchange : Type :=
| ConnectFails (e : exn)
| SendFails (e : exn)
| NoReply
| Undelivered
| Undecodable
| Unreadable (e : exn)
| Unprintable (s : string)
| Reply (body : value).

Definition connect_result (x : exchange) : result unit :=
  match x with ConnectFails e => Raise e | _ => Return tt end.

Definition send_result (x : exchange) : result unit :=
  match x with SendFails e => Raise e | _ => Return tt end.

Definition poll_ready (x : exchange) : bool :=
  match x with
  | Undecodable | Unreadable _ | Unprintable _ | Reply _ => true
  | ConnectFails _ | SendFails _ | NoReply | Undelivered => false
  end.

(** [zmq_socket.recv_json()] at line 24, which is reached only when the
    poll found a reply. *)
Definition recv_result (x : exchange) : result value :=
  match x with
  | Reply v => Return v
  | Unprintable s => Return (VStr s)
  | Unreadable e => Raise e
  | _ => Raise JSONDecodeError
  end.

(** [print(f"[StytraComm] received reply: {reply}")] at line 25. *)
Definition print_result (x : exchange) : result unit :=
  match x with
  | Unprintable _ => Raise UnicodeEncodeError
  | _ => Return tt
  end.

(** [zmq_context.destroy()] at line 45. *)
Definition destroy_result (x : exchange) : result unit :=
  match x with
  | Undelivered => Blocks
  | _ => Return tt
  end.

Definition emit (e : zmq_event) : M (list zmq_event) unit :=
  modify (fun tr => tr ++ [e]).

(** [with zmq_context.socket(zmq.REQ) as zmq_socket: body] *)
Definition with_socket {A : Type} (body : M (list zmq_event) A)
  : M (list zmq_event) A :=
  emit SocketOpen ;; finally body (fun tr => tr ++ [SocketClose]).

Section Call.
Variable float_of_str : string -> option spec_float.
Variable address : string.

(** [reply["duration"] if isinstance(reply, dict) and "duration" in reply
    else reply] *)
Definition candidate (reply : value) : value :=
  match reply with
  | VDict d =>
      match d !! "duration"%string with
      | Some x => x
      | None => reply
      end
  | _ => reply
  end.

(** Lines 34 to 43: coerce with [float], keep only a finite result. *)
Definition normalize (duration : value) : M (list zmq_event) (option spec_float) :=
  duration_val ← try_except
                   (f ← lift (float float_of_str duration); mret (Some f))
                   (fun _ => mret None);
  match duration_val with
  | None => mret None
  | Some f => if negb (isfinite f) then mret None else mret (Some f)
  end.

(** What lines 28 to 43 keep of a decoded reply: the candidate coerced by
    [float], when that succeeds with a finite number. *)
Definition kept (reply : value) : option spec_float :=
  match float float_of_str (candidate reply) with
  | Return f => if isfinite f then Some f else None
  | Raise _ | Blocks => None
  end.

(** Lines 12 to 47. Of the [print] calls only the one of line 25 is kept,
    for the exception it can raise; the others print the address, a
    dictionary, a float, [None] or a fixed text, which a console takes. *)
Definition trigger_and_receive_duration (x : exchange) (config : value)
  : M (list zmq_event) (option spec_float) :=
  emit ContextNew ;;
  duration ← with_socket
    (emit (Connect address) ;; lift (connect_result x) ;;
     emit (SendJson config) ;; lift (send_result x) ;;
     emit (Poll 1000) ;;
     if poll_ready x then
       reply ← (emit RecvJson ;; lift (recv_result x));
       lift (print_result x) ;;
       normalize (candidate reply)
     else mret None);
  emit ContextDestroy ;; lift (destroy_result x) ;;
  mret duration.

End Call.

End Stytra.

(** ** [ExternalComm]: the coordinator process *)

Module ExternalComm.
Import Py Eff.

(** Lines written through [self.logger.log_message]. *)
Inductive message : Type :=
| Started
| ConditionChanged (start_comm saving is_triggered waiting cond : bool)
| SkippingTrigger
| SentCommunication.

(** Lines written with [print]. *)
Inductive console : Type :=
| SendingTrigger (keys : list string)
| ClearingStartComm.

(** What the process does that other processes can observe, in order. *)
Inductive effect : Type :=
| LogMessage (m : message)
| Stdout (c : console)
| LinkCall (config : value)
| DurationPut (duration : spec_float)
| StartCommClear
| CloseLog.

Inductive status : Type :=
| Stopped
| StillRunning.

Section Coordinator.

(** The settings objects and [clean_json] come from modules outside this
    development, and so does the class behind [self.comm]: [peer] is what
    the link meets on one call, [comm] is its
    [trigger_and_receive_duration]. *)
Variable settings : Type.
Variable clean_json : settings -> value.
Variable peer : Type.
Variable comm : peer -> value -> result (option spec_float).

(** The attributes of [self] that [run] reads or writes. An event is the
    value its [is_set()] reports. *)
Record self : Type := {
  scanning_trigger : bool;
  stop_event : bool;
  start_comm : bool;
  saving_event : bool;
  is_triggered_event : bool;
  waiting_event : bool;
  current_settings_queue : list settings;
  current_settings : option settings;
  last_trigger_cond : bool
}.

(** The frame of [run]: [self], the local [current_config] ([None] while the
    name is unbound) and the effects so far. *)
Record frame : Type := {
  this : self;
  current_config : option (gmap string value);
  effects : list effect
}.

(** [__init__]: the events are references to events owned elsewhere,
    [is_triggered_event] is a fresh, clear [Event()]. *)
Definition init (scanning stop start saving waiting : bool) : self :=
  {| scanning_trigger := scanning;
     stop_event := stop;
     start_comm := start;
     saving_event := saving;
     is_triggered_event := false;
     waiting_event := waiting;
     current_settings_queue := [];
     current_settings := None;
     last_trigger_cond := false |}.

(** Entry of [run]: no local is bound yet. *)
Definition enter (s : self) : frame :=
  {| this := s; current_config := None; effects := [] |}.

Definition set_start_comm (b : bool) (s : self) : self :=
  {| scanning_trigger := scanning_trigger s;
     stop_event := stop_event s;
     start_comm := b;
     saving_event := saving_event s;
     is_triggered_event := is_triggered_event s;
     waiting_event := waiting_event s;
     current_settings_queue := current_settings_queue s;
     current_settings := current_settings s;
     last_trigger_cond := last_trigger_cond s |}.

Definition set_last_trigger_cond (b : bool) (s : self) : self :=
  {| scanning_trigger := scanning_trigger s;
     stop_event := stop_event s;
     start_comm := start_comm s;
     saving_event := saving_event s;
     is_triggered_event := is_triggered_event s;
     waiting_event := waiting_event s;
     current_settings_queue := current_settings_queue s;
     current_settings := current_settings s;
     last_trigger_cond := b |}.

(** One successful [current_settings_queue.get]: the head leaves the queue
    and becomes [self.current_settings]. *)
Definition take (x : settings) (rest : list settings) (s : self) : self :=
  {| scanning_trigger := scanning_trigger s;
     stop_event := stop_event s;
     start_comm := start_comm s;
     saving_event := saving_event s;
     is_triggered_event := is_triggered_event s;
     waiting_event := waiting_event s;
     current_settings_queue := rest;
     current_settings := Some x;
     last_trigger_cond := last_trigger_cond s |}.

Definition on_self (f : self -> self) (fr : frame) : frame :=
  {| this := f (this fr);
     current_config := current_config fr;
     effects := effects fr |}.

Definition emit (e : effect) : M frame unit :=
  modify (fun fr =>
    {| this := this fr;
       current_config := current_config fr;
       effects := effects fr ++ [e] |}).

Definition log_message (m : message) : M frame unit := emit (LogMessage m).
Definition print (c : console) : M frame unit := emit (Stdout c).

(** [dict(lightsheet=clean_json(x))] *)
Definition request (x : settings) : gmap string value :=
  {[ "lightsheet"%string := clean_json x ]}.

(** Lines 64 to 71: pop until [Empty]; every pop overwrites
    [self.current_settings] and rebinds [current_config]. The argument is
    the content of the queue, oldest entry first. *)
Fixpoint drain (queue : list settings) (fr : frame) : frame :=
  match queue with
  | [] => fr
  | x :: rest =>
      drain rest
        {| this := take x rest (this fr);
           current_config := Some (request x);
           effects := effects fr |}
  end.

(** Lines 45 to 59. With [scanning_trigger] off the method falls off its
    end, which returns [None]. *)
Definition trigger_condition : M frame value :=
  fr ← get;
  let s := this fr in
  if scanning_trigger s then
    let cond :=
      start_comm s && saving_event s && is_triggered_event s
      && negb (waiting_event s) in
    (if negb (Bool.eqb cond (last_trigger_cond s)) then
       log_message
         (ConditionChanged (start_comm s) (saving_event s)
            (is_triggered_event s) (waiting_event s) cond) ;;
       modify (on_self (set_last_trigger_cond cond))
     else mret tt) ;;
    mret (VBool cond)
  else mret VNone.

(** Reading the local [current_config] at line 86. *)
Definition read_current_config : M frame (gmap string value) :=
  fr ← get;
  match current_config fr with
  | Some d => mret d
  | None => lift (Raise UnboundLocalError)
  end.

(** What the rest of the system does around one pass of the loop: settings
    published, events written by their owners before the pass, the outcome
    of [start_comm.event.wait(timeout=1.0)] should the pass reach it, what
    another process writes to the start event between the moment the gate
    reads it and the end of that wait, and the peer the link would meet. *)
Record world : Type := {
  arrivals : list settings;
  write_stop : option bool;
  write_start : option bool;
  write_saving : option bool;
  write_triggered : option bool;
  write_waiting : option bool;
  wait_result : result bool;
  start_meanwhile : option bool;
  link_peer : peer
}.

Definition others (w : world) (s : self) : self :=
  {| scanning_trigger := scanning_trigger s;
     stop_event := default (stop_event s) (write_stop w);
     start_comm := default (start_comm s) (write_start w);
     saving_event := default (saving_event s) (write_saving w);
     is_triggered_event := default (is_triggered_event s) (write_triggered w);
     waiting_event := default (waiting_event s) (write_waiting w);
     current_settings_queue := current_settings_queue s ++ arrivals w;
     current_settings := current_settings s;
     last_trigger_cond := last_trigger_cond s |}.

(** The start event once the other processes have written to it during
    the confirmation. *)
Definition meanwhile (w : world) (s : self) : self :=
  set_start_comm (default (start_comm s) (start_meanwhile w)) s.

(** [Event.wait(timeout=1.0)] is bounded: a wait that does not come back
    with the flag set returns [False] once the second is over. *)
Definition bounded (r : result bool) : result bool :=
  match r with
  | Blocks => Return false
  | Return _ | Raise _ => r
  end.

(** Lines 76 to 80. The fallback [is_set()] of line 80 reads the event as it
    is then, not as the gate saw it. *)
Definition confirm_start (w : world) : M frame bool :=
  modify (on_self (meanwhile w)) ;;
  try_except (lift (bounded (wait_result w)))
    (fun _ => fr ← get; mret (start_comm (this fr))).

(** What [started] holds after lines 76 to 80. *)
Definition confirmed (w : world) (fr : frame) : bool :=
  match wait_result w with
  | Return b => b
  | Raise _ => default (start_comm (this fr)) (start_meanwhile w)
  | Blocks => false
  end.

(** Lines 86 to 92. *)
Definition fire (w : world) : M frame unit :=
  config ← read_current_config;
  print (SendingTrigger (map fst (map_to_list config))) ;;
  duration ← (emit (LinkCall (VDict config)) ;;
              lift (comm (link_peer w) (VDict config)));
  match duration with
  | Some d => emit (DurationPut d)
  | None => mret tt
  end ;;
  log_message SentCommunication ;;
  print ClearingStartComm ;;
  emit StartCommClear ;;
  modify (on_self (set_start_comm false)).

(** Lines 64 to 92: one pass of the body of the outer [while]. *)
Definition body (w : world) : M frame unit :=
  modify (fun fr => drain (current_settings_queue (this fr)) fr) ;;
  cond ← trigger_condition;
  if truthy cond then
    started ← confirm_start w;
    if negb started then log_message SkippingTrigger
    else fire w
  else mret tt.

(** Lines 63 to 92 against a schedule: the loop tests [stop_event], runs the
    body, and starts over. A schedule that ends leaves the loop running. *)
Fixpoint loop (schedule : list world) : M frame status :=
  match schedule with
  | [] => mret StillRunning
  | w :: later =>
      modify (on_self (others w)) ;;
      fr ← get;
      if stop_event (this fr) then mret Stopped
      else body w ;; loop later
  end.

(** Lines 61 to 93. *)
Definition run (schedule : list world) : M frame status :=
  log_message Started ;;
  st ← loop schedule;
  match st with
  | Stopped => emit CloseLog
  | StillRunning => mret tt
  end ;;
  mret st.

End Coordinator.

Arguments scanning_trigger {settings} s.
Arguments stop_event {settings} s.
Arguments start_comm {settings} s.
Arguments saving_event {settings} s.
Arguments is_triggered_event {settings} s.
Arguments waiting_event {settings} s.
Arguments current_settings_queue {settings} s.
Arguments current_settings {settings} s.
Arguments last_trigger_cond {settings} s.
Arguments this {settings} f.
Arguments current_config {settings} f.
Arguments effects {settings} f.
Arguments enter {settings} s.
Arguments init {settings} scanning stop start saving waiting.
Arguments set_start_comm {settings} b s.
Arguments set_last_trigger_cond {settings} b s.
Arguments take {settings} x rest s.
Arguments on_self {settings} f fr.
Arguments emit {settings} e.
Arguments log_message {settings} m.
Arguments print {settings} c.
Arguments read_current_config {settings}.
Arguments trigger_condition {settings}.
Arguments drain {settings} clean_json queue fr.
Arguments request {settings} clean_json x.
Arguments others {settings peer} w s.
Arguments wait_result {settings peer} w.
Arguments start_meanwhile {settings peer} w.
Arguments meanwhile {settings peer} w s.
Arguments link_peer {settings peer} w.
Arguments arrivals {settings peer} w.
Arguments confirm_start {settings peer} w.
Arguments confirmed {settings peer} w fr.
Arguments fire {settings peer} comm w.
Arguments body {settings} clean_json {peer} comm w.
Arguments loop {settings} clean_json {peer} comm schedule.
Arguments run {settings} clean_json {peer} comm schedule.

End ExternalComm.

(** ** The coordinator wired to the network link *)

Module Wired.
Import Py Eff.

(** [self.comm.trigger_and_receive_duration(current_config)] as its caller
    sees it: the value returned or the exception raised. *)
Definition comm (float_of_str : string -> option spec_float) (address : string)
  (x : Stytra.exchange) (config : value) : result (option spec_float) :=
  fst (Stytra.trigger_and_receive_duration float_of_str address x config []).

(** The durations put on the output queue, read off a list of effects. *)
Definition durations (l : list ExternalComm.effect) : list spec_float :=
  omap (fun e => match e with ExternalComm.DurationPut d => Some d | _ => None end) l.

(** The requests handed to the link. *)
Definition link_calls (l : list ExternalComm.effect) : list value :=
  omap (fun e => match e with ExternalComm.LinkCall c => Some c | _ => None end) l.

(** How many times [start_comm.clear()] ran. *)
Definition clears (l : list ExternalComm.effect) : nat :=
  length (omap (fun e => match e with ExternalComm.StartCommClear => Some tt | _ => None end) l).

(** The effects added between two frames of one run. *)
Definition since {settings : Type} (before after : ExternalComm.frame settings)
  : list ExternalComm.effect :=
  drop (length (ExternalComm.effects before)) (ExternalComm.effects after).

(** The five events as the coordinator sees them. *)
Definition signals {settings : Type} (s : ExternalComm.self settings)
  : bool * bool * bool * bool * bool :=
  (ExternalComm.stop_event s, ExternalComm.start_comm s,
   ExternalComm.saving_event s, ExternalComm.is_triggered_event s,
   ExternalComm.waiting_event s).

(** The four inputs of the gating condition. *)
Definition gate {settings : Type} (s : ExternalComm.self settings) : bool :=
  ExternalComm.start_comm s && ExternalComm.saving_event s
  && ExternalComm.is_triggered_event s && negb (ExternalComm.waiting_event s).

(** What [fire] appends when the link returns [r] for the request [d]. *)
Definition fired (d : gmap string value) (r : option spec_float)
  : list ExternalComm.effect :=
  [ExternalComm.Stdout (ExternalComm.SendingTrigger (map fst (map_to_list d)));
   ExternalComm.LinkCall (VDict d)]
  ++ match r with
     | Some x => [ExternalComm.DurationPut x]
     | None => []
     end
  ++ [ExternalComm.LogMessage ExternalComm.SentCommunication;
      ExternalComm.Stdout ExternalComm.ClearingStartComm;
      ExternalComm.StartCommClear].

End Wired.

(** ** Concrete runs *)

Module Scenario.
Import Py Eff.

(** 2.5 as a double. *)
Definition two_and_a_half : spec_float := S754_finite false 5 (-1).

(** A stand-in for [float(str)] that knows the three keywords and nothing
    else; the scenarios below send no other string. *)
Definition keywords (s : string) : option spec_float :=
  if String.eqb s "nan" then Some S754_nan
  else if String.eqb s "inf" then Some (S754_infinity false)
  else if String.eqb s "-inf" then Some (S754_infinity true)
  else None.

Definition address : string := "tcp://localhost:5555".

(** Settings that are already JSON values, which [clean_json] hands back
    unchanged. *)
Definition clean_json (v : value) : value := v.

Definition link : Stytra.exchange -> value -> result (option spec_float) :=
  Wired.comm keywords address.

(** A coordinator in scanning-trigger mode whose start and saving events
    are set and whose waiting event is clear. *)
Definition armed : ExternalComm.self value :=
  ExternalComm.init true false true true false.

(** A coordinator with scanning-trigger mode off. *)
Definition ungated : ExternalComm.self value :=
  ExternalComm.init false false true true true.

(** A pass before which [is_triggered_event] is set and [published] is put
    on the settings queue; the confirmation wait yields [wait] and the peer
    behaves as [x]. *)
Definition pass (published : list value) (wait : result bool)
  (x : Stytra.exchange) : ExternalComm.world value Stytra.exchange :=
  {| ExternalComm.arrivals := published;
     ExternalComm.write_stop := None;
     ExternalComm.write_start := None;
     ExternalComm.write_saving := None;
     ExternalComm.write_triggered := Some true;
     ExternalComm.write_waiting := None;
     ExternalComm.wait_result := wait;
     ExternalComm.start_meanwhile := None;
     ExternalComm.link_peer := x |}.

(** A later pass before which the acquisition sets the start event again. *)
Definition restarted (x : Stytra.exchange)
  : ExternalComm.world value Stytra.exchange :=
  {| ExternalComm.arrivals := [];
     ExternalComm.write_stop := None;
     ExternalComm.write_start := Some true;
     ExternalComm.write_saving := None;
     ExternalComm.write_triggered := None;
     ExternalComm.write_waiting := None;
     ExternalComm.wait_result := Return true;
     ExternalComm.start_meanwhile := None;
     ExternalComm.link_peer := x |}.

Definition some_settings : value :=
  VDict {[ "piezo_frequency"%string := VInt 5 ]}.


(** The armed coordinator once [is_triggered_event] is set and [published]
    waits on the settings queue, at the top of a pass. *)
Definition ready (published : list value) : ExternalComm.frame value :=
  ExternalComm.enter
    (ExternalComm.others (pass published (Return true) Stytra.NoReply) armed).

End Scenario.

(** ** More concrete runs *)

Module Cases.
Import Py Eff.

(** [{"duration": "inf", "status": "ok"}] *)
Definition quoted : gmap string value :=
  <[ "status"%string := VStr "ok" ]> {[ "duration"%string := VStr "inf" ]}.

(** [{"duration": {"duration": 2.5}}] *)
Definition nested : gmap string value :=
  {[ "duration"%string :=
       VDict {[ "duration"%string := VFloat Scenario.two_and_a_half ]} ]}.

(** A pass in which the start event has no [event] to wait on, so that
    line 77 raises, while its owner clears it. *)
Definition cleared_without_wait
  : ExternalComm.world value Stytra.exchange :=
  {| ExternalComm.arrivals := [];
     ExternalComm.write_stop := None;
     ExternalComm.write_start := None;
     ExternalComm.write_saving := None;
     ExternalComm.write_triggered := None;
     ExternalComm.write_waiting := None;
     ExternalComm.wait_result := Raise AttributeError;
     ExternalComm.start_meanwhile := Some false;
     ExternalComm.link_peer := Stytra.NoReply |}.

(** A pass in which the owner of the start event clears it right after
    the gate has read it, so that the wait of line 77 runs out. *)
Definition cleared_during_wait
  : ExternalComm.world value Stytra.exchange :=
  {| ExternalComm.arrivals := [];
     ExternalComm.write_stop := None;
     ExternalComm.write_start := None;
     ExternalComm.write_saving := None;
     ExternalComm.write_triggered := None;
     ExternalComm.write_waiting := None;
     ExternalComm.wait_result := Return false;
     ExternalComm.start_meanwhile := Some false;
     ExternalComm.link_peer := Stytra.NoReply |}.

(** The peer answers 2.5. *)
Definition answers : Stytra.exchange :=
  Stytra.Reply (VFloat Scenario.two_and_a_half).

(** The armed coordinator at the top of a pass, its events all in place,
    with the request of an earlier pass and nothing new published. *)
Definition primed : ExternalComm.frame value :=
  {| ExternalComm.this := ExternalComm.this (Scenario.ready []);
     ExternalComm.current_config :=
       Some (ExternalComm.request Scenario.clean_json Scenario.some_settings);
     ExternalComm.effects := [] |}.

End Cases.

(** ** Integers as doubles *)

Module Num.

(** [f] is the integer [z], exactly: a zero for 0, otherwise the sign of
    [z] and a mantissa and exponent whose product is its magnitude. *)
Definition exact_int (f : spec_float) (z : Z) : Prop :=
  match f with
  | S754_zero _ => z = 0%Z
  | S754_finite s m e =>
      s = (z <? 0)%Z /\ (e <= 0)%Z /\ Zpos m = (Z.abs z * 2 ^ (- e))%Z
  | S754_infinity _ | S754_nan => False
  end.

End Num.

(** ** Reading traces *)

Module Trace.
Import Py Eff.

(** How many entries of a list pass a test. *)
Definition tally {A : Type} (p : A -> bool) (l : list A) : nat :=
  length (List.filter p l).

Definition is_context_new (e : Stytra.zmq_event) : bool :=
  match e with Stytra.ContextNew => true | _ => false end.

Definition is_context_destroy (e : Stytra.zmq_event) : bool :=
  match e with Stytra.ContextDestroy => true | _ => false end.

Definition is_socket_open (e : Stytra.zmq_event) : bool :=
  match e with Stytra.SocketOpen => true | _ => false end.

Definition is_socket_close (e : Stytra.zmq_event) : bool :=
  match e with Stytra.SocketClose => true | _ => false end.

Definition is_send (e : Stytra.zmq_event) : bool :=
  match e with Stytra.SendJson _ => true | _ => false end.

Definition is_recv (e : Stytra.zmq_event) : bool :=
  match e with Stytra.RecvJson => true | _ => false end.

(** The [cond] of every "trigger_condition changed" line, in order. *)
Definition logged_conds (l : list ExternalComm.effect) : list bool :=
  omap (fun e =>
          match e with
          | ExternalComm.LogMessage (ExternalComm.ConditionChanged _ _ _ _ c) =>
              Some c
          | _ => None
          end) l.

(** Every entry differs from the one before it, the first from [last]. *)
Fixpoint alternates (last : bool) (l : list bool) : bool :=
  match l with
  | [] => true
  | c :: rest => negb (Bool.eqb c last) && alternates c rest
  end.

Definition is_close_log (e : ExternalComm.effect) : bool :=
  match e with ExternalComm.CloseLog => true | _ => false end.

(** The link calls, the puts and the clears of a list of effects, in their
    order, without the log and console lines between them. *)
Definition protocol (l : list ExternalComm.effect)
  : list ExternalComm.effect :=
  List.filter
    (fun e =>
       match e with
       | ExternalComm.LinkCall _ | ExternalComm.DurationPut _
       | ExternalComm.StartCommClear => true
       | _ => false
       end) l.

(** Rounds that are complete: a link call, the put of its value if it
    returned one, and the clear of the start event. *)
Inductive closed_rounds : list ExternalComm.effect -> Prop :=
| closed_nil : closed_rounds []
| closed_absent (c : value) (rest : list ExternalComm.effect) :
    closed_rounds rest ->
    closed_rounds
      (ExternalComm.LinkCall c :: ExternalComm.StartCommClear :: rest)
| closed_value (c : value) (x : spec_float)
    (rest : list ExternalComm.effect) :
    closed_rounds rest ->
    closed_rounds
      (ExternalComm.LinkCall c :: ExternalComm.DurationPut x
         :: ExternalComm.StartCommClear :: rest).

(** Complete rounds, followed or not by one last call with nothing after
    it. *)
Inductive rounds : list ExternalComm.effect -> Prop :=
| rounds_closed (l : list ExternalComm.effect) :
    closed_rounds l -> rounds l
| rounds_open (l : list ExternalComm.effect) (c : value) :
    closed_rounds l -> rounds (l ++ [ExternalComm.LinkCall c]).

End Trace.

(** ** The camera scripts: naming a property value *)

Module CameraScripts.

Section Names.

(** The type of a property value, with Python's [==] on it and its [str]. *)
Context {V : Type} `{EqDecision V}.
Variable str : V -> string.

(** [f"<unknown:{value}>"] *)
Definition unknown (value : V) : string :=
  ("<unknown:" +:+ str value +:+ ">")%string.

(** [get_text_name] of [test_camera_trigger_speed.py] (lines 82 to 86) and
    of [test_trigger_standalone.py] (lines 112 to 116). The dictionary is
    the list of its items in iteration order. *)
Fixpoint get_text_name (value : V) (text_dict : list (string * V)) : string :=
  match text_dict with
  | [] => unknown value
  | (name, val) :: rest =>
      if bool_decide (val = value) then name else get_text_name value rest
  end.

(** Lines 95 and 96 of [tests/check_trigger_properties.py]: the names whose
    value is [current], then the first of them or the placeholder. *)
Definition current_name (current : V) (text_opts : list (string * V)) : string :=
  let names :=
    map fst (List.filter (fun item => bool_decide (snd item = current)) text_opts)
  in
  match names with
  | name :: _ => name
  | [] => unknown current
  end.

End Names.

(** The options of a trigger-source property. *)
Definition trigger_source_text : list (string * Z) :=
  [("INTERNAL"%string, 1%Z); ("EXTERNAL"%string, 2%Z);
   ("SOFTWARE"%string, 3%Z)].

End CameraScripts.

(** * Properties of the network link *)

Section StytraFacts.
Import Py Eff Stytra.

Variable float_of_str : string -> option spec_float.
Variable address : string.

(** [float] returns or raises; it waits for nothing. *)
Lemma float_comes_back (x : value) : float float_of_str x <> Blocks.
Proof.
  assert (Hint : forall z, float_of_int z <> Blocks).
  { intros z. unfold float_of_int.
    destruct (binary_normalize 53 1024 z 0 false); discriminate. }
  destruct x as [|b|z|f|s|l|d]; simpl; try discriminate; try apply Hint.
  destruct (float_of_str s); discriminate.
Qed.

Lemma normalize_kept (reply : value) (tr : list zmq_event) :
  normalize float_of_str (candidate reply) tr
  = (Return (kept float_of_str reply), tr).
Proof.
  pose proof (float_comes_back (candidate reply)) as Hback.
  unfold normalize, kept, try_except, lift, mbind, M_bind, bind, mret, M_ret, ret.
  destruct (float float_of_str (candidate reply)) as [f|e|];
    [|reflexivity|congruence].
  destruct (isfinite f); reflexivity.
Qed.

(** A decoded reply: the call returns what [float] and [isfinite] keep, the
    socket is closed and the context destroyed. *)
Lemma call_reply (body config : value) (tr : list zmq_event) :
  trigger_and_receive_duration float_of_str address (Reply body) config tr =
  (Return (kept float_of_str body),
   tr ++ [ContextNew; SocketOpen; Connect address; SendJson config;
          Poll 1000; RecvJson; SocketClose; ContextDestroy]).
Proof.
  unfold trigger_and_receive_duration, with_socket, finally, emit, modify,
    lift, mbind, M_bind, bind, mret, M_ret, ret; simpl.
  rewrite normalize_kept. simpl.
  now rewrite <- !app_assoc.
Qed.

(** Nothing arrives within the timeout. *)
Lemma call_no_reply (config : value) (tr : list zmq_event) :
  trigger_and_receive_duration float_of_str address NoReply config tr =
  (Return None,
   tr ++ [ContextNew; SocketOpen; Connect address; SendJson config;
          Poll 1000; SocketClose; ContextDestroy]).
Proof.
  unfold trigger_and_receive_duration, with_socket, finally, emit, modify,
    lift, mbind, M_bind, bind, mret, M_ret, ret; simpl.
  now rewrite <- !app_assoc.
Qed.

(** A body that is not a JSON document: [recv_json] raises inside the [with]
    block, which closes the socket and lets the exception through. *)
Lemma call_undecodable (config : value) (tr : list zmq_event) :
  trigger_and_receive_duration float_of_str address Undecodable config tr =
  (Raise JSONDecodeError,
   tr ++ [ContextNew; SocketOpen; Connect address; SendJson config;
          Poll 1000; RecvJson; SocketClose]).
Proof.
  unfold trigger_and_receive_duration, with_socket, finally, emit, modify,
    lift, mbind, M_bind, bind, mret, M_ret, ret; simpl.
  now rewrite <- !app_assoc.
Qed.

Lemma call_connect_fails (e : exn) (config : value) (tr : list zmq_event) :
  trigger_and_receive_duration float_of_str address (ConnectFails e) config tr =
  (Raise e, tr ++ [ContextNew; SocketOpen; Connect address; SocketClose]).
Proof.
  unfold trigger_and_receive_duration, with_socket, finally, emit, modify,
    lift, mbind, M_bind, bind, mret, M_ret, ret; simpl.
  now rewrite <- !app_assoc.
Qed.

Lemma call_send_fails (e : exn) (config : value) (tr : list zmq_event) :
  trigger_and_receive_duration float_of_str address (SendFails e) config tr =
  (Raise e,
   tr ++ [ContextNew; SocketOpen; Connect address; SendJson config;
          SocketClose]).
Proof.
  unfold trigger_and_receive_duration, with_socket, finally, emit, modify,
    lift, mbind, M_bind, bind, mret, M_ret, ret; simpl.
  now rewrite <- !app_assoc.
Qed.

(** No peer takes the request: the poll times out, the socket is closed,
    and [destroy()] does not come back. *)
Lemma call_undelivered (config : value) (tr : list zmq_event) :
  trigger_and_receive_duration float_of_str address Undelivered config tr =
  (Blocks,
   tr ++ [ContextNew; SocketOpen; Connect address; SendJson config;
          Poll 1000; SocketClose; ContextDestroy]).
Proof.
  unfold trigger_and_receive_duration, with_socket, finally, emit, modify,
    lift, mbind, M_bind, bind, mret, M_ret, ret; simpl.
  now rewrite <- !app_assoc.
Qed.

(** [recv_json] raises something else than a [JSONDecodeError]. *)
Lemma call_unreadable (e : exn) (config : value) (tr : list zmq_event) :
  trigger_and_receive_duration float_of_str address (Unreadable e) config tr =
  (Raise e,
   tr ++ [ContextNew; SocketOpen; Connect address; SendJson config;
          Poll 1000; RecvJson; SocketClose]).
Proof.
  unfold trigger_and_receive_duration, with_socket, finally, emit, modify,
    lift, mbind, M_bind, bind, mret, M_ret, ret; simpl.
  now rewrite <- !app_assoc.
Qed.

(** The reply is a string the console cannot encode: line 25 raises. *)
Lemma call_unprintable (s : string) (config : value) (tr : list zmq_event) :
  trigger_and_receive_duration float_of_str address (Unprintable s) config tr =
  (Raise UnicodeEncodeError,
   tr ++ [ContextNew; SocketOpen; Connect address; SendJson config;
          Poll 1000; RecvJson; SocketClose]).
Proof.
  unfold trigger_and_receive_duration, with_socket, finally, emit, modify,
    lift, mbind, M_bind, bind, mret, M_ret, ret; simpl.
  now rewrite <- !app_assoc.
Qed.

(** Whatever the call returns is finite. *)
Lemma call_returns_finite (x : exchange) (config : value)
  (tr : list zmq_event) (f : spec_float) :
  fst (trigger_and_receive_duration float_of_str address x config tr) = Return (Some f) -> isfinite f = true.
Proof.
  destruct x as [e|e| | | |e|s|body].
  - rewrite call_connect_fails. discriminate.
  - rewrite call_send_fails. discriminate.
  - rewrite call_no_reply. discriminate.
  - rewrite call_undelivered. discriminate.
  - rewrite call_undecodable. discriminate.
  - rewrite call_unreadable. discriminate.
  - rewrite call_unprintable. discriminate.
  - rewrite call_reply. unfold kept. simpl.
    destruct (float float_of_str (candidate body)) as [g| |];
      [|discriminate|discriminate].
    destruct (isfinite g) eqn:Hg; [|discriminate].
    intros [= <-]. exact Hg.
Qed.

(** The socket opened by the call is closed on every path. *)
Lemma socket_always_closed (x : exchange) (config : value) :
  In SocketClose (snd (trigger_and_receive_duration float_of_str address x config [])).
Proof.
  destruct x as [e|e| | | |e|s|body];
    rewrite ?call_connect_fails, ?call_send_fails, ?call_no_reply,
      ?call_undelivered, ?call_undecodable, ?call_unreadable,
      ?call_unprintable, ?call_reply; simpl; tauto.
Qed.

End StytraFacts.

Section StytraClaims.
Import Py Eff Stytra.

Variable float_of_str : string -> option spec_float.
Variable address : string.

(** Replies from which nothing is kept: a NaN or an infinity, bare or under
    the key [duration], and any candidate that [float] refuses. *)
Lemma kept_not_finite (f : spec_float) (d : gmap string value) :
  isfinite f = false ->
  kept float_of_str (VFloat f) = None
  /\ (d !! "duration"%string = Some (VFloat f) ->
      kept float_of_str (VDict d) = None).
Proof.
  intros Hf. unfold kept. simpl. rewrite Hf. split; [reflexivity|].
  intros ->. simpl. now rewrite Hf.
Qed.

Lemma kept_refused (reply : value) (e : exn) :
  float float_of_str (candidate reply) = Raise e ->
  kept float_of_str reply = None.
Proof. unfold kept. now intros ->. Qed.

(** Short of a body that cannot be decoded, an unusable reply gives the
    absent result: no reply within the timeout, or a decoded reply from
    which nothing is kept. *)
Lemma unusable_reply_absent (config : value) (tr : list zmq_event) :
  fst (trigger_and_receive_duration float_of_str address NoReply config tr)
  = Return None
  /\ forall body,
       kept float_of_str body = None ->
       fst (trigger_and_receive_duration float_of_str address (Reply body)
              config tr) = Return None.
Proof.
  split.
  - now rewrite call_no_reply.
  - intros body Hk. rewrite call_reply. simpl. now rewrite Hk.
Qed.

(** C3, at a reply whose body is not a JSON document: [recv_json] at line 24
    stands outside the [try] of lines 34 to 37, so the call does not return
    the absent result, it raises. *)
Theorem malformed_reply_raises (config : value) (tr : list zmq_event) :
  fst (trigger_and_receive_duration float_of_str address Undecodable config tr)
  = Raise JSONDecodeError.
Proof. now rewrite call_undecodable. Qed.

(** C4: for a finite [v], the reply [{"duration": v}] yields [v], and so
    does the bare reply [v]. *)
Theorem finite_duration_returned (config : value) (tr : list zmq_event)
  (v : spec_float) :
  isfinite v = true ->
  fst (trigger_and_receive_duration float_of_str address
         (Reply (VDict {[ "duration"%string := VFloat v ]})) config tr)
  = Return (Some v)
  /\ fst (trigger_and_receive_duration float_of_str address
            (Reply (VFloat v)) config tr)
     = Return (Some v).
Proof.
  intros Hv. rewrite !call_reply. unfold kept. simpl.
  rewrite lookup_singleton_eq. simpl. now rewrite Hv.
Qed.

(** The same holds for an object that carries other keys next to
    [duration]. *)
Lemma finite_duration_field_returned (config : value) (tr : list zmq_event)
  (v : spec_float) (d : gmap string value) :
  isfinite v = true ->
  d !! "duration"%string = Some (VFloat v) ->
  fst (trigger_and_receive_duration float_of_str address (Reply (VDict d))
         config tr) = Return (Some v).
Proof.
  intros Hv Hd. rewrite call_reply. unfold kept. simpl.
  rewrite Hd. simpl. now rewrite Hv.
Qed.

(** C8, at a reply whose body is not a JSON document: the [with] block
    closes the socket, but [zmq_context.destroy()] at line 45 follows the
    block instead of sitting in a [finally], and the exception skips it. *)
Theorem context_not_destroyed_on_exception (config : value) :
  let out := trigger_and_receive_duration float_of_str address Undecodable
               config [] in
  fst out = Raise JSONDecodeError
  /\ In ContextNew (snd out)
  /\ In SocketClose (snd out)
  /\ ~ In ContextDestroy (snd out).
Proof.
  cbv zeta. rewrite call_undecodable. simpl.
  repeat split; try tauto.
  intros H. repeat (destruct H as [H|H]; [discriminate H|]). exact H.
Qed.

(** On the paths that return, the context is destroyed, and it is the last
    thing the call does. *)
Lemma context_destroyed_on_return (x : exchange) (config : value)
  (r : option spec_float) :
  fst (trigger_and_receive_duration float_of_str address x config [])
  = Return r ->
  last (snd (trigger_and_receive_duration float_of_str address x config []))
  = Some ContextDestroy.
Proof.
  destruct x as [e|e| | | |e|s|body];
    rewrite ?call_connect_fails, ?call_send_fails, ?call_no_reply,
      ?call_undelivered, ?call_undecodable, ?call_unreadable,
      ?call_unprintable, ?call_reply; simpl; try discriminate; reflexivity.
Qed.

(** C10: a reply that is an object without the key [duration] is its own
    candidate, [float] refuses it with a [TypeError], and the call returns
    the absent result. *)
Theorem object_without_duration_absent (config : value)
  (tr : list zmq_event) (d : gmap string value) :
  d !! "duration"%string = None ->
  candidate (VDict d) = VDict d
  /\ float float_of_str (candidate (VDict d)) = Raise TypeError
  /\ fst (trigger_and_receive_duration float_of_str address (Reply (VDict d))
            config tr) = Return None.
Proof.
  intros Hd.
  assert (Hc : candidate (VDict d) = VDict d) by (simpl; now rewrite Hd).
  split; [exact Hc|]. split; [now rewrite Hc|].
  rewrite call_reply. unfold kept. now rewrite Hc.
Qed.

End StytraClaims.

(** The two statements above at 2.5, and at an object with one other key. *)
Lemma finite_duration_returned_at_2_5 :
  Py.isfinite Scenario.two_and_a_half = true
  /\ fst (Stytra.trigger_and_receive_duration Scenario.keywords
            Scenario.address
            (Stytra.Reply
               (Py.VDict {[ "duration"%string :=
                              Py.VFloat Scenario.two_and_a_half ]}))
            Py.VNone [])
     = Py.Return (Some Scenario.two_and_a_half)
  /\ fst (Stytra.trigger_and_receive_duration Scenario.keywords
            Scenario.address
            (Stytra.Reply (Py.VFloat Scenario.two_and_a_half)) Py.VNone [])
     = Py.Return (Some Scenario.two_and_a_half).
Proof.
  split; [reflexivity|].
  apply (finite_duration_returned Scenario.keywords Scenario.address
           Py.VNone [] Scenario.two_and_a_half).
  reflexivity.
Defined.

Lemma object_without_duration_absent_at_status :
  ({[ "status"%string := Py.VStr "ok" ]} : gmap string Py.value)
    !! "duration"%string = None
  /\ fst (Stytra.trigger_and_receive_duration Scenario.keywords
            Scenario.address
            (Stytra.Reply (Py.VDict {[ "status"%string := Py.VStr "ok" ]}))
            Py.VNone [])
     = Py.Return None.
Proof.
  split; [vm_compute; reflexivity|].
  apply (object_without_duration_absent Scenario.keywords Scenario.address
           Py.VNone [] {[ "status"%string := Py.VStr "ok" ]}).
  vm_compute; reflexivity.
Defined.

(** * Properties of the coordinator *)

Ltac step_monad :=
  unfold Eff.modify, Eff.get, Eff.lift, Eff.try_except, mbind, Eff.M_bind,
    Eff.bind, mret, Eff.M_ret, Eff.ret in *.

Section CoordinatorFacts.
Import Py Eff ExternalComm Wired.

Variable settings : Type.
Variable clean_json : settings -> value.
Variable peer : Type.
Variable comm : peer -> value -> result (option spec_float).

Implicit Types (fr : frame settings) (w : world settings peer).

(** *** Draining the settings queue *)

Lemma drain_effects queue fr :
  effects (drain clean_json queue fr) = effects fr.
Proof.
  revert fr. induction queue as [|x rest IH]; intros fr; [reflexivity|].
  simpl. now rewrite IH.
Qed.

Lemma drain_signals queue fr :
  signals (this (drain clean_json queue fr)) = signals (this fr)
  /\ scanning_trigger (this (drain clean_json queue fr))
     = scanning_trigger (this fr)
  /\ last_trigger_cond (this (drain clean_json queue fr))
     = last_trigger_cond (this fr).
Proof.
  revert fr. induction queue as [|x rest IH]; intros fr; [easy|].
  simpl. destruct (IH {| this := take x rest (this fr);
                         current_config := Some (request clean_json x);
                         effects := effects fr |}) as (-> & -> & ->).
  easy.
Qed.

(** Only the entry popped last is left in [self.current_settings] and in
    [current_config]; with nothing to pop both keep what they had. *)
Lemma drain_latest queue fr :
  current_config (drain clean_json queue fr)
  = match last queue with
    | Some x => Some (request clean_json x)
    | None => current_config fr
    end
  /\ current_settings (this (drain clean_json queue fr))
     = match last queue with
       | Some x => Some x
       | None => current_settings (this fr)
       end.
Proof.
  revert fr. induction queue as [|x rest IH]; intros fr; [easy|].
  simpl drain. destruct (IH {| this := take x rest (this fr);
                               current_config := Some (request clean_json x);
                               effects := effects fr |}) as (-> & ->).
  rewrite (last_cons x rest).
  destruct (last rest); split; reflexivity.
Qed.


(** *** The gating condition *)

(** [trigger_condition] never raises; in scanning-trigger mode it returns
    the conjunction as a [bool], otherwise [None]. It writes nothing but a
    log line and [_last_trigger_cond]. *)
Lemma trigger_condition_value fr :
  fst (trigger_condition fr)
  = Return (if scanning_trigger (this fr) then VBool (gate (this fr))
            else VNone).
Proof.
  unfold trigger_condition, gate, log_message, emit. step_monad.
  destruct (scanning_trigger (this fr)); [|reflexivity].
  destruct (negb _); reflexivity.
Qed.

Lemma trigger_condition_frame fr :
  signals (this (snd (trigger_condition fr))) = signals (this fr)
  /\ current_config (snd (trigger_condition fr)) = current_config fr
  /\ current_settings_queue (this (snd (trigger_condition fr)))
     = current_settings_queue (this fr)
  /\ exists line,
       effects (snd (trigger_condition fr)) = effects fr ++ line
       /\ link_calls line = [] /\ durations line = [] /\ clears line = 0%nat.
Proof.
  unfold trigger_condition, log_message, emit. step_monad.
  destruct (scanning_trigger (this fr)).
  - destruct (negb _); simpl.
    + repeat split. eexists. split; [reflexivity|]. easy.
    + repeat split. exists []. now rewrite app_nil_r.
  - simpl. repeat split. exists []. now rewrite app_nil_r.
Qed.

(** *** Confirmation and firing *)

Lemma meanwhile_signals w (s s' : self settings) :
  signals s = signals s' -> signals (meanwhile w s) = signals (meanwhile w s').
Proof.
  unfold signals, meanwhile. simpl. intros [= -> -> -> -> ->]. reflexivity.
Qed.

Lemma confirm_start_eq w fr :
  confirm_start w fr = (Return (confirmed w fr), on_self (meanwhile w) fr).
Proof.
  unfold confirm_start, confirmed, bounded. step_monad.
  destruct (wait_result w); reflexivity.
Qed.

(** [current_config] was never bound: line 86 raises before the link is
    called, and nothing is written. *)
Lemma fire_unbound w fr :
  current_config fr = None ->
  fire comm w fr = (Raise UnboundLocalError, fr).
Proof.
  intros H. unfold fire, read_current_config. step_monad. now rewrite H.
Qed.

(** The link returns: at most one put, then exactly one clear. *)
Lemma fire_returns w fr d r :
  current_config fr = Some d ->
  comm (link_peer w) (VDict d) = Return r ->
  fire comm w fr
  = (Return tt,
     {| this := set_start_comm false (this fr);
        current_config := current_config fr;
        effects := effects fr ++ fired d r |}).
Proof.
  intros Hd Hr. unfold fire, read_current_config, log_message, print, emit,
    on_self, fired.
  step_monad. rewrite Hd. simpl. rewrite Hr.
  destruct r; simpl; rewrite <- !app_assoc, ?Hd; reflexivity.
Qed.

(** The link raises: the exception leaves [fire] after the call, before
    any put and before the clear. *)
Lemma fire_raises w fr d e :
  current_config fr = Some d ->
  comm (link_peer w) (VDict d) = Raise e ->
  fire comm w fr
  = (Raise e,
     {| this := this fr;
        current_config := current_config fr;
        effects := effects fr
                   ++ [Stdout (SendingTrigger (map fst (map_to_list d)));
                       LinkCall (VDict d)] |}).
Proof.
  intros Hd Hr. unfold fire, read_current_config, log_message, print, emit,
    on_self.
  step_monad. rewrite Hd. simpl. rewrite Hr.
  simpl; rewrite <- !app_assoc, ?Hd; reflexivity.
Qed.

(** The link does not come back: [fire] stays in the call. *)
Lemma fire_blocks w fr d :
  current_config fr = Some d ->
  comm (link_peer w) (VDict d) = Blocks ->
  fire comm w fr
  = (Blocks,
     {| this := this fr;
        current_config := current_config fr;
        effects := effects fr
                   ++ [Stdout (SendingTrigger (map fst (map_to_list d)));
                       LinkCall (VDict d)] |}).
Proof.
  intros Hd Hr. unfold fire, read_current_config, log_message, print, emit,
    on_self.
  step_monad. rewrite Hd. simpl. rewrite Hr.
  simpl; rewrite <- !app_assoc, ?Hd; reflexivity.
Qed.

(** One pass, by cases on the gate and the confirmation. *)
Lemma body_eq w fr :
  body clean_json comm w fr
  = let fr1 := snd (trigger_condition
                      (drain clean_json (current_settings_queue (this fr)) fr))
    in
    if scanning_trigger (this fr) && gate (this fr) then
      if confirmed w fr then fire comm w (on_self (meanwhile w) fr1)
      else log_message SkippingTrigger (on_self (meanwhile w) fr1)
    else (Return tt, fr1).
Proof.
  set (fr0 := drain clean_json (current_settings_queue (this fr)) fr).
  destruct (drain_signals (current_settings_queue (this fr)) fr)
    as (Hsig & Hscan & _).
  fold fr0 in Hsig, Hscan.
  assert (Hgate : gate (this fr0) = gate (this fr)).
  { unfold gate. unfold signals in Hsig. now injection Hsig as _ -> -> -> ->. }
  assert (Hstart : start_comm (this fr0) = start_comm (this fr)).
  { unfold signals in Hsig. now injection Hsig. }
  pose proof (trigger_condition_value fr0) as Hv.
  destruct (trigger_condition_frame fr0) as (Hsig1 & _).
  unfold body. step_monad. fold fr0. cbv zeta.
  destruct (trigger_condition fr0) as [res fr1] eqn:Htc. simpl in Hv, Hsig1.
  subst res. rewrite Hscan, Hgate. simpl snd.
  destruct (scanning_trigger (this fr)); simpl; [|reflexivity].
  destruct (gate (this fr)); simpl; [|reflexivity].
  rewrite (confirm_start_eq w fr1).
  assert (Hc : confirmed w fr1 = confirmed w fr).
  { unfold confirmed. destruct (wait_result w); try reflexivity.
    rewrite <- Hstart. unfold signals in Hsig1. now injection Hsig1 as _ -> _. }
  rewrite Hc. destruct (confirmed w fr); reflexivity.
Qed.

Lemma since_app fr fr' new :
  effects fr' = effects fr ++ new -> since fr fr' = new.
Proof. unfold since. intros ->. apply drop_app_length. Qed.

(** The six ways one pass can go. In each, [line] is what
    [trigger_condition] logged. Once the confirmation is reached the events
    are as the other processes left them meanwhile. *)
Lemma body_cases w fr :
  let fr0 := drain clean_json (current_settings_queue (this fr)) fr in
  let out := body clean_json comm w fr in
  exists line,
    link_calls line = [] /\ durations line = [] /\ clears line = 0%nat
    /\ current_config (snd out) = current_config fr0
    /\ ((scanning_trigger (this fr) && gate (this fr) = false
         /\ fst out = Return tt
         /\ effects (snd out) = effects fr ++ line
         /\ signals (this (snd out)) = signals (this fr))
        \/ (scanning_trigger (this fr) && gate (this fr) = true
            /\ confirmed w fr = false
            /\ fst out = Return tt
            /\ effects (snd out)
               = effects fr ++ line ++ [LogMessage SkippingTrigger]
            /\ signals (this (snd out)) = signals (meanwhile w (this fr)))
        \/ (scanning_trigger (this fr) && gate (this fr) = true
            /\ confirmed w fr = true
            /\ current_config fr0 = None
            /\ fst out = Raise UnboundLocalError
            /\ effects (snd out) = effects fr ++ line
            /\ signals (this (snd out)) = signals (meanwhile w (this fr)))
        \/ (exists d r,
              scanning_trigger (this fr) && gate (this fr) = true
              /\ confirmed w fr = true
              /\ current_config fr0 = Some d
              /\ comm (link_peer w) (VDict d) = Return r
              /\ fst out = Return tt
              /\ effects (snd out) = effects fr ++ line ++ fired d r
              /\ start_comm (this (snd out)) = false)
        \/ (exists d e,
              scanning_trigger (this fr) && gate (this fr) = true
              /\ confirmed w fr = true
              /\ current_config fr0 = Some d
              /\ comm (link_peer w) (VDict d) = Raise e
              /\ fst out = Raise e
              /\ effects (snd out)
                 = effects fr ++ line
                   ++ [Stdout (SendingTrigger (map fst (map_to_list d)));
                       LinkCall (VDict d)]
              /\ signals (this (snd out)) = signals (meanwhile w (this fr)))
        \/ (exists d,
              scanning_trigger (this fr) && gate (this fr) = true
              /\ confirmed w fr = true
              /\ current_config fr0 = Some d
              /\ comm (link_peer w) (VDict d) = Blocks
              /\ fst out = Blocks
              /\ effects (snd out)
                 = effects fr ++ line
                   ++ [Stdout (SendingTrigger (map fst (map_to_list d)));
                       LinkCall (VDict d)]
              /\ signals (this (snd out)) = signals (meanwhile w (this fr)))).
Proof.
  cbv zeta. rewrite body_eq. cbv zeta.
  set (fr0 := drain clean_json (current_settings_queue (this fr)) fr).
  destruct (trigger_condition_frame fr0)
    as (Hsig & Hcc & _ & line & Heff & Hl1 & Hl2 & Hl3).
  assert (Hsig0 : signals (this fr0) = signals (this fr))
    by apply drain_signals.
  assert (Heff0 : effects fr0 = effects fr) by apply drain_effects.
  rewrite Hsig0 in Hsig. rewrite Heff0 in Heff.
  set (fr1 := snd (trigger_condition fr0)) in *.
  set (fr2 := on_self (meanwhile w) fr1).
  assert (Hsig2 : signals (this fr2) = signals (meanwhile w (this fr)))
    by (apply meanwhile_signals; exact Hsig).
  assert (Hcc2 : current_config fr2 = current_config fr0) by exact Hcc.
  assert (Heff2 : effects fr2 = effects fr ++ line) by exact Heff.
  exists line. split; [exact Hl1|]. split; [exact Hl2|]. split; [exact Hl3|].
  destruct (scanning_trigger (this fr) && gate (this fr)) eqn:Hg.
  2:{ split; [exact Hcc|]. left. easy. }
  destruct (confirmed w fr) eqn:Hc.
  2:{ unfold log_message, emit. step_monad. cbn [fst snd this current_config
        effects].
      split; [exact Hcc2|]. right; left. rewrite Heff2, <- app_assoc. easy. }
  destruct (current_config fr0) as [d|] eqn:Hd.
  2:{ rewrite fire_unbound by exact Hcc2. cbn [fst snd].
      split; [exact Hcc2|]. right; right; left. easy. }
  destruct (comm (link_peer w) (VDict d)) as [r|e|] eqn:Hr.
  - rewrite (fire_returns w fr2 d r Hcc2 Hr).
    cbn [fst snd this current_config effects].
    split; [exact Hcc2|]. right; right; right; left. exists d, r.
    rewrite Heff2, <- app_assoc. easy.
  - rewrite (fire_raises w fr2 d e Hcc2 Hr).
    cbn [fst snd this current_config effects].
    split; [exact Hcc2|]. right; right; right; right; left. exists d, e.
    rewrite Heff2, <- app_assoc. easy.
  - rewrite (fire_blocks w fr2 d Hcc2 Hr).
    cbn [fst snd this current_config effects].
    split; [exact Hcc2|]. right; right; right; right; right. exists d.
    rewrite Heff2, <- app_assoc. easy.
Qed.

Lemma gate_true (s : self settings) :
  gate s = true
  <-> start_comm s = true /\ saving_event s = true
      /\ is_triggered_event s = true /\ waiting_event s = false.
Proof.
  unfold gate.
  destruct (start_comm s), (saving_event s), (is_triggered_event s),
    (waiting_event s); simpl; intuition congruence.
Qed.

Lemma durations_app (a b : list effect) :
  durations (a ++ b) = durations a ++ durations b.
Proof. apply omap_app. Qed.

Lemma link_calls_app (a b : list effect) :
  link_calls (a ++ b) = link_calls a ++ link_calls b.
Proof. apply omap_app. Qed.

Lemma clears_app (a b : list effect) :
  clears (a ++ b) = (clears a + clears b)%nat.
Proof. unfold clears. now rewrite omap_app, length_app. Qed.

(** A truthy result of [trigger_condition] after the drain means the mode
    is on and the gate is open in the frame the pass started from. *)
Lemma truthy_gate fr cond :
  fst (trigger_condition
         (drain clean_json (current_settings_queue (this fr)) fr))
  = Return cond ->
  truthy cond = true ->
  scanning_trigger (this fr) && gate (this fr) = true.
Proof.
  rewrite trigger_condition_value.
  destruct (drain_signals (current_settings_queue (this fr)) fr)
    as (Hsig & -> & _).
  unfold gate. unfold signals in Hsig. injection Hsig as _ -> -> -> ->.
  destruct (scanning_trigger (this fr)); intros [= <-]; simpl; congruence.
Qed.

(** The confirmation computed after [trigger_condition] is the one of the
    frame the pass started from. *)
Lemma confirm_after_gate w fr :
  fst (confirm_start w
         (snd (trigger_condition
                 (drain clean_json (current_settings_queue (this fr)) fr))))
  = Return (confirmed w fr).
Proof.
  rewrite confirm_start_eq. simpl. f_equal. unfold confirmed.
  destruct (wait_result w); try reflexivity.
  destruct (trigger_condition_frame
              (drain clean_json (current_settings_queue (this fr)) fr))
    as (H1 & _).
  destruct (drain_signals (current_settings_queue (this fr)) fr)
    as (H0 & _).
  rewrite H0 in H1. unfold signals in H1. now injection H1 as _ -> _.
Qed.

(** C1, as the code has it: [trigger_condition] returns [True] exactly when
    scanning-trigger mode is on, the start, saving and triggered events are
    set and the waiting event is clear; with the mode on it returns [False]
    in every other case; with the mode off it returns [None], which an [if]
    takes for false, whatever the four events are. It never raises. *)
Theorem trigger_condition_decides fr :
  let v := fst (trigger_condition fr) in
  let s := this fr in
  (v = Return (VBool true)
   <-> scanning_trigger s = true /\ start_comm s = true
       /\ saving_event s = true /\ is_triggered_event s = true
       /\ waiting_event s = false)
  /\ (v = Return (VBool false)
      <-> scanning_trigger s = true
          /\ ~ (start_comm s = true /\ saving_event s = true
                /\ is_triggered_event s = true /\ waiting_event s = false))
  /\ (v = Return VNone <-> scanning_trigger s = false)
  /\ exists x, v = Return x /\ truthy x = scanning_trigger s && gate s.
Proof.
  cbv zeta. rewrite trigger_condition_value. unfold gate.
  destruct (scanning_trigger (this fr)), (start_comm (this fr)),
    (saving_event (this fr)), (is_triggered_event (this fr)),
    (waiting_event (this fr)); simpl;
    (split; [|split; [|split]];
     [intuition congruence | intuition congruence | intuition congruence
     | eexists; split; reflexivity]).
Qed.


(** C6: when the gate is open but [started] comes out false (the bounded
    wait timed out, or it raised and the fallback [is_set()] found the
    start event clear), the pass is skipped: it returns normally, calls no
    link, puts nothing on the duration queue, clears nothing, keeps the
    request it had after the drain, and writes no event: the five events
    are as the other processes left them, so unchanged when those wrote
    nothing meanwhile. *)
Theorem unconfirmed_start_skips_cycle w fr cond :
  let fr0 := drain clean_json (current_settings_queue (this fr)) fr in
  fst (trigger_condition fr0) = Return cond ->
  truthy cond = true ->
  fst (confirm_start w (snd (trigger_condition fr0))) = Return false ->
  let out := body clean_json comm w fr in
  fst out = Return tt
  /\ link_calls (since fr (snd out)) = []
  /\ durations (since fr (snd out)) = []
  /\ clears (since fr (snd out)) = 0%nat
  /\ current_config (snd out) = current_config fr0
  /\ signals (this (snd out)) = signals (meanwhile w (this fr))
  /\ (start_meanwhile w = None ->
      signals (this (snd out)) = signals (this fr)).
Proof.
  cbv zeta. intros Hcond Htruthy Hwait.
  pose proof (truthy_gate fr cond Hcond Htruthy) as Hg.
  rewrite confirm_after_gate in Hwait. injection Hwait as Hc.
  destruct (body_cases w fr)
    as (line & Hl1 & Hl2 & Hl3 & Hcc & [H|[H|[H|[H|[H|H]]]]]).
  - destruct H as (Hg' & _). congruence.
  - destruct H as (_ & _ & Hret & Heff & Hsig).
    rewrite (since_app _ _ _ Heff).
    rewrite link_calls_app, durations_app, clears_app, Hl1, Hl2, Hl3.
    repeat split; try easy.
    intros Hnone. rewrite Hsig. unfold signals, meanwhile. simpl.
    now rewrite Hnone.
  - destruct H as (_ & Hc' & _). congruence.
  - destruct H as (d & r & _ & Hc' & _). congruence.
  - destruct H as (d & e & _ & Hc' & _). congruence.
  - destruct H as (d & _ & Hc' & _). congruence.
Qed.

(** When the pass fires with a request in hand and the link returns, with a
    value or with the absent result, [start_comm] is cleared exactly once,
    and the value, if any, is the one put on the duration queue. *)
Lemma start_cleared_once_when_fired w fr cond d r :
  let fr0 := drain clean_json (current_settings_queue (this fr)) fr in
  fst (trigger_condition fr0) = Return cond ->
  truthy cond = true ->
  fst (confirm_start w (snd (trigger_condition fr0))) = Return true ->
  current_config fr0 = Some d ->
  comm (link_peer w) (VDict d) = Return r ->
  let out := body clean_json comm w fr in
  fst out = Return tt
  /\ clears (since fr (snd out)) = 1%nat
  /\ start_comm (this (snd out)) = false
  /\ link_calls (since fr (snd out)) = [VDict d]
  /\ durations (since fr (snd out))
     = match r with Some x => [x] | None => [] end.
Proof.
  cbv zeta. intros Hcond Htruthy Hwait Hd Hr.
  pose proof (truthy_gate fr cond Hcond Htruthy) as Hg.
  rewrite confirm_after_gate in Hwait. injection Hwait as Hc.
  destruct (body_cases w fr)
    as (line & Hl1 & Hl2 & Hl3 & Hcc & [H|[H|[H|[H|[H|H]]]]]).
  - destruct H as (Hg' & _). congruence.
  - destruct H as (_ & Hc' & _). congruence.
  - destruct H as (_ & _ & Hd' & _). congruence.
  - destruct H as (d' & r' & _ & _ & Hd' & Hr' & Hret & Heff & Hst).
    rewrite Hd in Hd'. injection Hd' as <-.
    rewrite Hr in Hr'. injection Hr' as <-.
    rewrite (since_app _ _ _ Heff).
    rewrite link_calls_app, durations_app, clears_app, Hl1, Hl2, Hl3.
    destruct r; easy.
  - destruct H as (d' & e & _ & _ & Hd' & Hr' & _).
    rewrite Hd in Hd'. injection Hd' as <-. congruence.
  - destruct H as (d' & _ & _ & Hd' & Hr' & _).
    rewrite Hd in Hd'. injection Hd' as <-. congruence.
Qed.


(** The drain in general: the request is built from the last entry of the
    queue, whatever came before it. *)
Lemma drain_last_wins fr (older : list settings) (x : settings) :
  current_config (drain clean_json (older ++ [x]) fr)
  = Some (request clean_json x).
Proof.
  destruct (drain_latest (older ++ [x]) fr) as (-> & _).
  now rewrite last_snoc.
Qed.


(** *** The loop *)

(** A pass can raise in two ways only: the request was never built, or the
    link raised. *)
Lemma pass_raises_only w fr e :
  fst (body clean_json comm w fr) = Raise e ->
  let fr0 := drain clean_json (current_settings_queue (this fr)) fr in
  (current_config fr0 = None /\ e = UnboundLocalError)
  \/ exists d, current_config fr0 = Some d
               /\ comm (link_peer w) (VDict d) = Raise e.
Proof.
  cbv zeta. intros He.
  destruct (body_cases w fr)
    as (line & _ & _ & _ & _ & [H|[H|[H|[H|[H|H]]]]]).
  - destruct H as (_ & Hret & _). congruence.
  - destruct H as (_ & _ & Hret & _). congruence.
  - destruct H as (_ & _ & Hd & Hret & _). left. split; congruence.
  - destruct H as (d & r & _ & _ & _ & _ & Hret & _). congruence.
  - destruct H as (d & e' & _ & _ & Hd & Hr & Hret & _).
    right. exists d. split; congruence.
  - destruct H as (d & _ & _ & _ & _ & Hret & _). congruence.
Qed.

Lemma loop_step w (later : list (world settings peer)) fr :
  loop clean_json comm (w :: later) fr
  = let fr' := on_self (others w) fr in
    if stop_event (this fr') then (Return Stopped, fr')
    else match body clean_json comm w fr' with
         | (Return _, fr'') => loop clean_json comm later fr''
         | (Raise e, fr'') => (Raise e, fr'')
         | (Blocks, fr'') => (Blocks, fr'')
         end.
Proof.
  cbn [loop]. step_monad. cbv zeta. cbn [fst snd].
  destruct (stop_event (this (on_self (others w) fr))); [reflexivity|].
  destruct (body clean_json comm w (on_self (others w) fr)) as [[u|e|] f];
    reflexivity.
Qed.

Section FiniteLink.

(** A link that returns only finite values. *)
Hypothesis finite_link :
  forall p config f, comm p config = Return (Some f) -> isfinite f = true.

Lemma body_delivers_finite w fr :
  exists new,
    effects (snd (body clean_json comm w fr)) = effects fr ++ new
    /\ Forall (fun d => isfinite d = true) (durations new).
Proof.
  destruct (body_cases w fr)
    as (line & _ & Hl & _ & _ & [H|[H|[H|[H|[H|H]]]]]).
  - destruct H as (_ & _ & Heff & _). exists line. rewrite Hl. easy.
  - destruct H as (_ & _ & _ & Heff & _). eexists. split; [exact Heff|].
    rewrite durations_app, Hl. constructor.
  - destruct H as (_ & _ & _ & _ & Heff & _). exists line. rewrite Hl. easy.
  - destruct H as (d & r & _ & _ & _ & Hr & _ & Heff & _).
    eexists. split; [exact Heff|]. rewrite durations_app, Hl.
    destruct r as [f|]; simpl; [|constructor].
    constructor; [|constructor]. exact (finite_link _ _ _ Hr).
  - destruct H as (d & e & _ & _ & _ & _ & _ & Heff & _).
    eexists. split; [exact Heff|]. rewrite durations_app, Hl. constructor.
  - destruct H as (d & _ & _ & _ & _ & _ & Heff & _).
    eexists. split; [exact Heff|]. rewrite durations_app, Hl. constructor.
Qed.

Lemma loop_delivers_finite (schedule : list (world settings peer)) fr :
  exists new,
    effects (snd (loop clean_json comm schedule fr)) = effects fr ++ new
    /\ Forall (fun d => isfinite d = true) (durations new).
Proof.
  revert fr. induction schedule as [|w later IH]; intros fr.
  - exists []. simpl. now rewrite app_nil_r.
  - rewrite loop_step. cbv zeta.
    set (fr' := on_self (others w) fr).
    assert (Hfr' : effects fr' = effects fr) by reflexivity.
    destruct (stop_event (this fr')).
    + exists []. simpl. now rewrite app_nil_r.
    + destruct (body_delivers_finite w fr') as (n1 & H1 & F1).
      rewrite Hfr' in H1.
      destruct (body clean_json comm w fr') as [[[]|e|] fr''] eqn:Hb;
        cbn [snd] in H1.
      * destruct (IH fr'') as (n2 & H2 & F2).
        exists (n1 ++ n2). rewrite H2, H1, <- app_assoc.
        split; [reflexivity|]. rewrite durations_app.
        now apply Forall_app.
      * exists n1. cbn [snd]. rewrite H1. easy.
      * exists n1. cbn [snd]. rewrite H1. easy.
Qed.

Lemma run_delivers_finite (schedule : list (world settings peer)) fr :
  Forall (fun d => isfinite d = true)
    (durations (since fr (snd (run clean_json comm schedule fr)))).
Proof.
  unfold run, log_message, emit. step_monad. simpl.
  match goal with
  | |- context [loop clean_json comm schedule ?f] =>
      destruct (loop_delivers_finite schedule f) as (new & Heff & Hfin);
      destruct (loop clean_json comm schedule f) as [[st|e|] fr1]
  end; simpl in Heff.
  - destruct st; simpl.
    + erewrite since_app
        by (simpl; rewrite Heff, <- !app_assoc; reflexivity).
      rewrite !durations_app. simpl. now rewrite app_nil_r.
    + erewrite since_app by (rewrite Heff, <- !app_assoc; reflexivity).
      rewrite durations_app. exact Hfin.
  - simpl. erewrite since_app by (rewrite Heff, <- !app_assoc; reflexivity).
    rewrite durations_app. exact Hfin.
  - simpl. erewrite since_app by (rewrite Heff, <- !app_assoc; reflexivity).
    rewrite durations_app. exact Hfin.
Qed.

End FiniteLink.

(** A pass against a peer for which the link returns the absent result
    puts nothing on the duration queue. *)
Lemma absent_delivers_nothing w fr :
  (forall config, comm (link_peer w) config = Return None) ->
  durations (since fr (snd (body clean_json comm w fr))) = [].
Proof.
  intros Habs.
  destruct (body_cases w fr)
    as (line & _ & Hl & _ & _ & [H|[H|[H|[H|[H|H]]]]]).
  - destruct H as (_ & _ & Heff & _). now rewrite (since_app _ _ _ Heff).
  - destruct H as (_ & _ & _ & Heff & _).
    now rewrite (since_app _ _ _ Heff), durations_app, Hl.
  - destruct H as (_ & _ & _ & _ & Heff & _).
    now rewrite (since_app _ _ _ Heff).
  - destruct H as (d & r & _ & _ & _ & Hr & _ & Heff & _).
    rewrite Habs in Hr. injection Hr as <-.
    now rewrite (since_app _ _ _ Heff), durations_app, Hl.
  - destruct H as (d & e & _ & _ & _ & _ & _ & Heff & _).
    now rewrite (since_app _ _ _ Heff), durations_app, Hl.
  - destruct H as (d & _ & _ & _ & _ & _ & Heff & _).
    now rewrite (since_app _ _ _ Heff), durations_app, Hl.
Qed.

End CoordinatorFacts.

(** * The coordinator with the network link behind it *)

Section WiredClaims.
Import Py Eff ExternalComm Wired.

Variable float_of_str : string -> option spec_float.
Variable address : string.
Variable settings : Type.
Variable clean_json : settings -> value.

(** C9: over any schedule, every duration the coordinator puts on the
    output queue is finite, so no NaN and no infinity is delivered; and a
    pass whose link call returns the absent result puts nothing. *)
Theorem only_finite_durations_delivered
  (schedule : list (world settings Stytra.exchange)) (fr : frame settings) :
  Forall (fun d => isfinite d = true)
    (durations
       (since fr
          (snd (run clean_json (comm float_of_str address) schedule fr))))
  /\ forall w : world settings Stytra.exchange,
       (forall config,
          comm float_of_str address (link_peer w) config = Return None) ->
       durations
         (since fr (snd (body clean_json (comm float_of_str address) w fr)))
       = [].
Proof.
  split.
  - apply run_delivers_finite. intros p config f.
    apply call_returns_finite.
  - intros w. apply absent_delivers_nothing.
Qed.

End WiredClaims.

(** ** Concrete runs *)

(** C1 as stated fails with scanning-trigger mode off: the method returns
    [None], not [False]. *)
Lemma trigger_condition_none_when_ungated :
  ExternalComm.scanning_trigger Scenario.ungated = false
  /\ fst (ExternalComm.trigger_condition (ExternalComm.enter Scenario.ungated))
     = Py.Return Py.VNone
  /\ fst (ExternalComm.trigger_condition (ExternalComm.enter Scenario.ungated))
     <> Py.Return (Py.VBool false).
Proof. repeat split. discriminate. Qed.

(** C2, at a gate that opens before any settings were published: line 86
    reads [current_config], which no pass has bound, and the
    [UnboundLocalError] ends [run] with the stop event clear. The same
    happens, with the link's exception, when a request exists and the peer
    answers with a body that is not a JSON document. *)
Theorem loop_ended_by_exception (x : Stytra.exchange) :
  let early :=
    ExternalComm.run Scenario.clean_json Scenario.link
      [Scenario.pass [] (Py.Return true) x]
      (ExternalComm.enter Scenario.armed) in
  let garbled :=
    ExternalComm.run Scenario.clean_json Scenario.link
      [Scenario.pass [Scenario.some_settings] (Py.Return true)
         Stytra.Undecodable]
      (ExternalComm.enter Scenario.armed) in
  (fst early = Py.Raise Py.UnboundLocalError
   /\ ExternalComm.stop_event (ExternalComm.this (snd early)) = false)
  /\ (fst garbled = Py.Raise Py.JSONDecodeError
      /\ ExternalComm.stop_event (ExternalComm.this (snd garbled)) = false).
Proof. cbv zeta. repeat split. Qed.

(** C5, at the same early gate: the condition is true and the confirmation
    wait succeeds, yet the pass raises at line 86 and never reaches
    [start_comm.clear()]. *)
Theorem start_not_cleared_without_request (x : Stytra.exchange) :
  let w := Scenario.pass [] (Py.Return true) x in
  let fr := Scenario.ready [] in
  let fr0 :=
    ExternalComm.drain Scenario.clean_json
      (ExternalComm.current_settings_queue (ExternalComm.this fr)) fr in
  let out := ExternalComm.body Scenario.clean_json Scenario.link w fr in
  fst (ExternalComm.trigger_condition fr0) = Py.Return (Py.VBool true)
  /\ fst (ExternalComm.confirm_start w
            (snd (ExternalComm.trigger_condition fr0))) = Py.Return true
  /\ fst out = Py.Raise Py.UnboundLocalError
  /\ Wired.clears (Wired.since fr (snd out)) = 0%nat
  /\ ExternalComm.start_comm (ExternalComm.this (snd out)) = true.
Proof. cbv zeta. repeat split. Qed.

(** The skip of C6 on a pass whose confirmation wait raises and whose
    fallback [is_set()] finds the start event cleared meanwhile. *)
Lemma unconfirmed_start_skips_cycle_on_failed_wait :
  let w := Cases.cleared_without_wait in
  let fr := Scenario.ready [Scenario.some_settings] in
  let fr0 :=
    ExternalComm.drain Scenario.clean_json
      (ExternalComm.current_settings_queue (ExternalComm.this fr)) fr in
  let out := ExternalComm.body Scenario.clean_json Scenario.link w fr in
  (ExternalComm.wait_result w = Py.Raise Py.AttributeError
   /\ fst (ExternalComm.trigger_condition fr0) = Py.Return (Py.VBool true)
   /\ Py.truthy (Py.VBool true) = true
   /\ fst (ExternalComm.confirm_start w
             (snd (ExternalComm.trigger_condition fr0))) = Py.Return false)
  /\ (fst out = Py.Return tt
      /\ Wired.link_calls (Wired.since fr (snd out)) = []
      /\ Wired.durations (Wired.since fr (snd out)) = []
      /\ Wired.clears (Wired.since fr (snd out)) = 0%nat
      /\ ExternalComm.current_config (snd out)
         = ExternalComm.current_config fr0
      /\ Wired.signals (ExternalComm.this (snd out))
         = Wired.signals
             (ExternalComm.meanwhile w (ExternalComm.this fr))
      /\ (ExternalComm.start_meanwhile w = None ->
          Wired.signals (ExternalComm.this (snd out))
          = Wired.signals (ExternalComm.this fr))).
Proof.
  cbv zeta. split; [repeat split|].
  apply (unconfirmed_start_skips_cycle Py.value Scenario.clean_json
           Stytra.exchange Scenario.link Cases.cleared_without_wait
           (Scenario.ready [Scenario.some_settings]) (Py.VBool true));
    reflexivity.
Defined.

(** The same skip on a pass whose confirmation wait runs out, the owner of
    the start event having cleared it after the gate read it: the pass
    logs the skip and leaves the five events as it found them at the wait,
    the request in place. *)
Example skipped_on_timeout :
  let w := Cases.cleared_during_wait in
  let fr := Scenario.ready [Scenario.some_settings] in
  let out := ExternalComm.body Scenario.clean_json Scenario.link w fr in
  fst out = Py.Return tt
  /\ Wired.since fr (snd out)
     = [ExternalComm.LogMessage
          (ExternalComm.ConditionChanged true true true false true);
        ExternalComm.LogMessage ExternalComm.SkippingTrigger]
  /\ Wired.signals (ExternalComm.this (snd out))
     = Wired.signals (ExternalComm.meanwhile w (ExternalComm.this fr))
  /\ ExternalComm.start_comm (ExternalComm.this (snd out)) = false
  /\ ExternalComm.current_config (snd out)
     = Some (ExternalComm.request Scenario.clean_json Scenario.some_settings).
Proof. cbv zeta. repeat split. Qed.


(** C9 on a run of two passes, the first answered with 2.5 and the second
    with an infinity, and on a pass that gets no reply. *)
Lemma only_finite_durations_delivered_in_two_passes :
  let schedule :=
    [Scenario.pass [Scenario.some_settings] (Py.Return true)
       (Stytra.Reply (Py.VFloat Scenario.two_and_a_half));
     Scenario.restarted (Stytra.Reply (Py.VFloat (S754_infinity false)))] in
  let silent := Scenario.pass [] (Py.Return true) Stytra.NoReply in
  let fr := ExternalComm.enter Scenario.armed in
  (forall config,
     Scenario.link (ExternalComm.link_peer silent) config = Py.Return None)
  /\ Forall (fun d => Py.isfinite d = true)
       (Wired.durations
          (Wired.since fr
             (snd (ExternalComm.run Scenario.clean_json Scenario.link
                     schedule fr))))
  /\ Wired.durations
       (Wired.since (Scenario.ready [Scenario.some_settings])
          (snd (ExternalComm.body Scenario.clean_json Scenario.link silent
                  (Scenario.ready [Scenario.some_settings]))))
     = [].
Proof.
  cbv zeta. split; [reflexivity|]. split.
  - apply (only_finite_durations_delivered Scenario.keywords Scenario.address
             Py.value Scenario.clean_json).
  - apply (only_finite_durations_delivered Scenario.keywords Scenario.address
             Py.value Scenario.clean_json [] 
             (Scenario.ready [Scenario.some_settings])).
    reflexivity.
Defined.

(** The two passes above deliver 2.5 and nothing else. *)
Example two_passes_deliver_2_5 :
  Wired.durations
    (ExternalComm.effects
       (snd (ExternalComm.run Scenario.clean_json Scenario.link
               [Scenario.pass [Scenario.some_settings] (Py.Return true)
                  (Stytra.Reply (Py.VFloat Scenario.two_and_a_half));
                Scenario.restarted
                  (Stytra.Reply (Py.VFloat (S754_infinity false)))]
               (ExternalComm.enter Scenario.armed))))
  = [Scenario.two_and_a_half].
Proof. reflexivity. Qed.

(** * Further properties of the network link *)

Section StytraMore.
Import Py Eff Stytra Trace.

Variable float_of_str : string -> option spec_float.
Variable address : string.

Ltac by_exchange x :=
  destruct x as [?e|?e| | | |?e|?s|?body];
  rewrite ?call_connect_fails, ?call_send_fails, ?call_no_reply,
    ?call_undelivered, ?call_undecodable, ?call_unreadable,
    ?call_unprintable, ?call_reply.

(** On every path the call creates one context and opens one socket, talks
    only between the opening and the closing of that socket, closes it
    once, and afterwards does nothing except, at most, destroy the
    context. *)
Theorem socket_opened_and_closed_once (x : exchange) (config : value) :
  let tr := snd (trigger_and_receive_duration float_of_str address x
                   config []) in
  tally is_context_new tr = 1%nat
  /\ tally is_socket_open tr = 1%nat
  /\ tally is_socket_close tr = 1%nat
  /\ exists mid post,
       tr = [ContextNew; SocketOpen; Connect address] ++ mid
            ++ [SocketClose] ++ post
       /\ (post = [] \/ post = [ContextDestroy])
       /\ Forall (fun e => e = SendJson config \/ e = Poll 1000
                           \/ e = RecvJson) mid.
Proof.
  cbv zeta. by_exchange x; simpl; (split; [reflexivity|]);
    (split; [reflexivity|]); (split; [reflexivity|]).
  - exists [], []. repeat split; auto.
  - exists [SendJson config], []. repeat split; auto.
  - exists [SendJson config; Poll 1000], [ContextDestroy].
    repeat split; auto 10.
  - exists [SendJson config; Poll 1000], [ContextDestroy].
    repeat split; auto 10.
  - exists [SendJson config; Poll 1000; RecvJson], [].
    repeat split; auto 10.
  - exists [SendJson config; Poll 1000; RecvJson], [].
    repeat split; auto 10.
  - exists [SendJson config; Poll 1000; RecvJson], [].
    repeat split; auto 10.
  - exists [SendJson config; Poll 1000; RecvJson], [ContextDestroy].
    repeat split; auto 10.
Qed.

(** One call puts at most one request on the wire, the very [config] it was
    given, polls with the 1000 ms timeout only, and reads a reply at most
    once and never without having sent. *)
Theorem one_request_per_call (x : exchange) (config : value) :
  let tr := snd (trigger_and_receive_duration float_of_str address x
                   config []) in
  (tally is_send tr <= 1)%nat
  /\ (tally is_recv tr <= tally is_send tr)%nat
  /\ (forall c, In (SendJson c) tr -> c = config)
  /\ (forall t, In (Poll t) tr -> t = 1000%Z).
Proof.
  cbv zeta. by_exchange x; unfold tally; simpl;
    (split; [lia|]); (split; [lia|]);
    split; intros ? H; repeat (destruct H as [H|H]; [congruence|]);
    destruct H.
Qed.

(** The call returns a value exactly when a reply was decoded, [float]
    accepts its candidate, and the result is finite. *)
Theorem value_returned_iff (x : exchange) (config : value)
  (tr : list zmq_event) (f : spec_float) :
  fst (trigger_and_receive_duration float_of_str address x config tr)
  = Return (Some f)
  <-> exists body,
        x = Reply body
        /\ float float_of_str (candidate body) = Return f
        /\ isfinite f = true.
Proof.
  split.
  - by_exchange x; simpl; try discriminate.
    unfold kept.
    destruct (float float_of_str (candidate body)) as [g| |] eqn:Hg;
      [|discriminate|discriminate].
    destruct (isfinite g) eqn:Hfin; [|discriminate].
    intros [= <-]. eauto.
  - intros (body & -> & Hf & Hfin). rewrite call_reply. simpl.
    unfold kept. now rewrite Hf, Hfin.
Qed.

(** The call returns the absent result exactly when the request was taken
    and nothing came back within the timeout, or a reply was decoded and
    printed and its candidate is refused by [float] or is not finite. *)
Theorem absent_returned_iff (x : exchange) (config : value)
  (tr : list zmq_event) :
  fst (trigger_and_receive_duration float_of_str address x config tr)
  = Return None
  <-> x = NoReply
      \/ exists body,
           x = Reply body
           /\ ((exists e, float float_of_str (candidate body) = Raise e)
               \/ exists f, float float_of_str (candidate body) = Return f
                            /\ isfinite f = false).
Proof.
  split.
  - by_exchange x; simpl; try discriminate; [now left|].
    unfold kept. intros H. right. exists body. split; [reflexivity|].
    pose proof (float_comes_back float_of_str (candidate body)) as Hback.
    destruct (float float_of_str (candidate body)) as [g|e|];
      [|eauto|congruence].
    destruct (isfinite g) eqn:Hfin; [discriminate|eauto].
  - intros [->|(body & -> & [(e & He)|(f & Hf & Hfin)])].
    + now rewrite call_no_reply.
    + rewrite call_reply. simpl. unfold kept. now rewrite He.
    + rewrite call_reply. simpl. unfold kept. now rewrite Hf, Hfin.
Qed.

Lemma call_raise_cause (x : exchange) (config : value)
  (tr : list zmq_event) (e : exn) :
  fst (trigger_and_receive_duration float_of_str address x config tr)
  = Raise e ->
  x = ConnectFails e \/ x = SendFails e
  \/ (x = Undecodable /\ e = JSONDecodeError)
  \/ x = Unreadable e
  \/ ((exists s, x = Unprintable s) /\ e = UnicodeEncodeError).
Proof.
  by_exchange x; simpl; try discriminate; intros [= ->]; eauto 10.
Qed.

Lemma call_blocks_cause (x : exchange) (config : value)
  (tr : list zmq_event) :
  fst (trigger_and_receive_duration float_of_str address x config tr)
  = Blocks ->
  x = Undelivered.
Proof. by_exchange x; simpl; try discriminate; reflexivity. Qed.

(** The call raises exactly when [connect] raises, [send_json] raises,
    [recv_json] raises (a [JSONDecodeError] on a body that is not a JSON
    document, or something else), or the reply is a string that line 25
    cannot print; a bad candidate never raises. *)
Theorem call_raises_iff (x : exchange) (config : value)
  (tr : list zmq_event) (e : exn) :
  fst (trigger_and_receive_duration float_of_str address x config tr)
  = Raise e
  <-> x = ConnectFails e \/ x = SendFails e
      \/ (x = Undecodable /\ e = JSONDecodeError)
      \/ x = Unreadable e
      \/ ((exists s, x = Unprintable s) /\ e = UnicodeEncodeError).
Proof.
  split; [apply call_raise_cause|].
  intros [->|[->|[[-> ->]|[->|[(s & ->) ->]]]]];
    now rewrite ?call_connect_fails, ?call_send_fails, ?call_undecodable,
      ?call_unreadable, ?call_unprintable.
Qed.

(** [destroy()] is called on the paths that leave the [with] block
    normally and on no other: when the call returns it is the last thing
    done, when the call raises it was never reached, and when the call
    does not come back it is where the call waits. *)
Theorem context_destroyed_unless_raised (x : exchange) (config : value) :
  let out := trigger_and_receive_duration float_of_str address x config [] in
  match fst out with
  | Return _ => last (snd out) = Some ContextDestroy
  | Raise _ => ~ In ContextDestroy (snd out)
  | Blocks => last (snd out) = Some ContextDestroy /\ x = Undelivered
  end.
Proof.
  assert (Hno : forall l : list zmq_event,
             Forall (fun e => is_context_destroy e = false) l ->
             ~ In ContextDestroy l).
  { intros l Hl Hin. rewrite Forall_forall in Hl.
    specialize (Hl _ (proj2 (list_elem_of_In _ _) Hin)). discriminate. }
  cbv zeta. by_exchange x; cbn [fst snd app];
    try reflexivity; try (apply Hno; repeat constructor).
  split; reflexivity.
Qed.

End StytraMore.

(** ** Replies that are not a bare float *)

Section Replies.
Import Py Eff Stytra.

Variable float_of_str : string -> option spec_float.
Variable address : string.

(** An envelope gives what the bare field gives once line 25 has printed
    it, unless the field is itself an object with a [duration] key. The two
    differ on a string the console cannot print: bare, it makes line 25
    raise; in an envelope it is printed quoted and escaped, and the call
    returns. *)
Theorem envelope_as_bare (config : value) (tr : list zmq_event)
  (d : gmap string value) (x : value) :
  d !! "duration"%string = Some x ->
  (forall d', x = VDict d' -> d' !! "duration"%string = None) ->
  fst (trigger_and_receive_duration float_of_str address (Reply (VDict d))
         config tr)
  = fst (trigger_and_receive_duration float_of_str address (Reply x)
           config tr)
  /\ forall s, x = VStr s ->
       fst (trigger_and_receive_duration float_of_str address
              (Unprintable s) config tr) = Raise UnicodeEncodeError
       /\ fst (trigger_and_receive_duration float_of_str address
                 (Reply (VDict d)) config tr)
          = Return (match float_of_str s with
                    | Some f => if isfinite f then Some f else None
                    | None => None
                    end).
Proof.
  intros Hd Hx.
  assert (Hc : candidate (VDict d) = x) by (simpl; now rewrite Hd).
  split.
  - rewrite !call_reply. simpl. f_equal. unfold kept. rewrite Hc.
    replace (candidate x) with x; [reflexivity|].
    destruct x as [| | | | | |d']; try reflexivity.
    simpl. now rewrite (Hx d' eq_refl).
  - intros s ->. rewrite call_reply, call_unprintable.
    split; [reflexivity|]. cbn [fst]. unfold kept. rewrite Hc. simpl.
    destruct (float_of_str s); reflexivity.
Qed.

(** The envelope is opened once: a [duration] field that is itself an
    object, a list or [null] gives the absent result, whatever it holds. *)
Theorem envelope_opened_once (config : value) (tr : list zmq_event)
  (d : gmap string value) (x : value) :
  d !! "duration"%string = Some x ->
  (x = VNone \/ (exists l, x = VList l) \/ exists d', x = VDict d') ->
  fst (trigger_and_receive_duration float_of_str address (Reply (VDict d))
         config tr)
  = Return None.
Proof.
  intros Hd Hx. rewrite call_reply. simpl. f_equal. unfold kept.
  replace (candidate (VDict d)) with x by (simpl; now rewrite Hd).
  destruct Hx as [->|[(l & ->)|(d' & ->)]]; reflexivity.
Qed.

Lemma digits2_shift (p s : positive) :
  digits2_pos (Pos.iter xO p s) = (digits2_pos p + s)%positive.
Proof.
  induction s as [|s IH] using Pos.peano_ind.
  - simpl. lia.
  - rewrite Pos.iter_succ. simpl. rewrite IH. lia.
Qed.

Lemma shift_value (p s : positive) :
  Zpos (Pos.iter xO p s) = (Zpos p * 2 ^ Zpos s)%Z.
Proof.
  induction s as [|s IH] using Pos.peano_ind.
  - simpl. lia.
  - rewrite Pos.iter_succ, Pos2Z.inj_xO, IH, Pos2Z.inj_succ, Z.pow_succ_r
      by lia. lia.
Qed.

(** A mantissa of 53 bits with an exponent in range is left alone by the
    rounding. *)
Lemma round_full (sx : bool) (m : positive) (e : Z) :
  digits2_pos m = 53%positive -> (-1074 <= e <= 971)%Z ->
  binary_round_aux 53 1024 sx (Zpos m) e loc_Exact = S754_finite sx m e.
Proof.
  intros Hd He. unfold binary_round_aux, shr_fexp, fexp, emin.
  simpl Zdigits2. rewrite Hd.
  replace (Z.max (53 + e - 53) (3 - 1024 - 53) - e)%Z with 0%Z by lia.
  simpl. rewrite Hd.
  replace (Z.max (53 + e - 53) (3 - 1024 - 53) - e)%Z with 0%Z by lia.
  simpl. destruct (Z.leb_spec e (1024 - 53)); [reflexivity|lia].
Qed.

Lemma digits2_size (p : positive) : digits2_pos p = Pos.size p.
Proof. induction p; simpl; congruence. Qed.

Lemma size_bound (p : positive) :
  (Zpos p < 2 ^ 53)%Z -> (Zpos (digits2_pos p) <= 53)%Z.
Proof.
  intros Hp.
  rewrite digits2_size.
  destruct (Z.le_gt_cases (Zpos (Pos.size p)) 53) as [H|H]; [exact H|exfalso].
  pose proof (Pos.size_le p) as Hle.
  assert (2 ^ 54 <= 2 ^ Zpos (Pos.size p))%Z by (apply Z.pow_le_mono_r; lia).
  assert (Zpos (2 ^ Pos.size p) = 2 ^ Zpos (Pos.size p))%Z
    by (now rewrite Pos2Z.inj_pow).
  assert (Zpos (2 ^ Pos.size p) <= Zpos p~0)%Z
    by (apply Pos2Z.pos_le_pos; exact Hle).
  assert (2 ^ 54 = 2 * 2 ^ 53)%Z by reflexivity.
  lia.
Qed.

Lemma round_small (sx : bool) (p : positive) :
  (Zpos p < 2 ^ 53)%Z ->
  exists m e,
    binary_round 53 1024 sx p 0 = S754_finite sx m e
    /\ (-52 <= e <= 0)%Z /\ Zpos m = (Zpos p * 2 ^ (- e))%Z.
Proof.
  intros Hp. pose proof (size_bound p Hp) as Hd.
  unfold binary_round, shl_align, fexp, emin.
  replace (Z.max (Z.pos (digits2_pos p) + 0 - 53) (3 - 1024 - 53))%Z
    with (Zpos (digits2_pos p) - 53)%Z by lia.
  destruct (Zpos (digits2_pos p) - 53 - 0)%Z as [|q|q] eqn:Hq; try lia.
  - exists p, 0%Z. rewrite round_full by lia. split; [reflexivity|].
    split; [lia|]. simpl. lia.
  - exists (Pos.iter xO p q), (Zpos (digits2_pos p) - 53)%Z.
    rewrite round_full.
    + split; [reflexivity|]. split; [lia|].
      rewrite shift_value. f_equal. f_equal. lia.
    + rewrite digits2_shift. lia.
    + lia.
Qed.

(** [float(n)] is exact for an [int] of magnitude below 2^53. *)
Lemma float_of_int_exact (z : Z) :
  (Z.abs z < 2 ^ 53)%Z ->
  exists f, float_of_int z = Return f /\ isfinite f = true
            /\ Num.exact_int f z.
Proof.
  intros Hz. unfold float_of_int, binary_normalize.
  destruct z as [|p|p].
  - exists (S754_zero false). easy.
  - destruct (round_small false p Hz) as (m & e & -> & He & Hm).
    exists (S754_finite false m e). repeat split; try easy; lia.
  - destruct (round_small true p Hz) as (m & e & -> & He & Hm).
    exists (S754_finite true m e). repeat split; try easy; lia.
Qed.

(** A reply that is a JSON integer of magnitude below 2^53, bare or under
    [duration], is returned as the double that equals it. *)
Theorem integer_reply_exact (config : value) (tr : list zmq_event) (z : Z) :
  (Z.abs z < 2 ^ 53)%Z ->
  exists f,
    Num.exact_int f z
    /\ fst (trigger_and_receive_duration float_of_str address
              (Reply (VInt z)) config tr) = Return (Some f)
    /\ fst (trigger_and_receive_duration float_of_str address
              (Reply (VDict {[ "duration"%string := VInt z ]})) config tr)
       = Return (Some f).
Proof.
  intros Hz. destruct (float_of_int_exact z Hz) as (f & Hf & Hfin & Hex).
  exists f. split; [exact Hex|].
  rewrite !call_reply. unfold kept. simpl. rewrite lookup_singleton_eq.
  simpl. now rewrite Hf, Hfin.
Qed.

(** A reply that is a string is taken for what [float] reads in it: a
    quoted finite number is returned, a quoted NaN or infinity and an
    unreadable string give the absent result. *)
Lemma string_reply_parsed (config : value) (tr : list zmq_event)
  (s : string) :
  fst (trigger_and_receive_duration float_of_str address (Reply (VStr s))
         config tr)
  = Return (match float_of_str s with
            | Some f => if isfinite f then Some f else None
            | None => None
            end).
Proof.
  rewrite call_reply. unfold kept. simpl.
  destruct (float_of_str s); reflexivity.
Qed.

End Replies.

(** * Further properties of the coordinator *)

Arguments ExternalComm.write_start {settings peer} w.
Arguments ExternalComm.write_triggered {settings peer} w.

Section CoordinatorMore.
Import Py Eff ExternalComm Wired Trace.

Variable settings : Type.
Variable clean_json : settings -> value.
Variable peer : Type.
Variable comm : peer -> value -> result (option spec_float).

Implicit Types (fr : frame settings) (w : world settings peer).

(** [trigger_condition] in full: mode off, nothing happens; mode on and the
    condition as last seen, nothing is written; otherwise one line is
    logged and the condition remembered. *)
Lemma trigger_condition_eq fr :
  trigger_condition fr
  = if scanning_trigger (this fr) then
      if Bool.eqb (gate (this fr)) (last_trigger_cond (this fr)) then
        (Return (VBool (gate (this fr))), fr)
      else
        (Return (VBool (gate (this fr))),
         {| this := set_last_trigger_cond (gate (this fr)) (this fr);
            current_config := current_config fr;
            effects :=
              effects fr
              ++ [LogMessage
                    (ConditionChanged (start_comm (this fr))
                       (saving_event (this fr))
                       (is_triggered_event (this fr))
                       (waiting_event (this fr)) (gate (this fr)))] |})
    else (Return VNone, fr).
Proof.
  unfold trigger_condition, gate, log_message, emit, on_self. step_monad.
  destruct (scanning_trigger (this fr)); [|reflexivity].
  destruct (Bool.eqb _ _); reflexivity.
Qed.

(** Asking twice in a row changes nothing the second time: same answer, no
    new log line, nothing written. *)
Theorem trigger_condition_idempotent fr :
  trigger_condition (snd (trigger_condition fr))
  = (fst (trigger_condition fr), snd (trigger_condition fr)).
Proof.
  rewrite (trigger_condition_eq fr).
  destruct (scanning_trigger (this fr)) eqn:Hs.
  - destruct (Bool.eqb (gate (this fr)) (last_trigger_cond (this fr))) eqn:He;
      cbn [fst snd]; rewrite trigger_condition_eq; cbn [this].
    + now rewrite Hs, He.
    + unfold gate at 1 2; simpl. fold (gate (this fr)).
      rewrite Hs. now rewrite Bool.eqb_reflx.
  - cbn [fst snd]. rewrite trigger_condition_eq. now rewrite Hs.
Qed.

(** Past the gate, a pass writes no condition line, does not close the
    log, and leaves the mode and [_last_trigger_cond] alone. *)
Lemma past_gate_quiet w (g c : bool) fr1 fr2 :
  effects fr2 = effects fr1 ->
  scanning_trigger (this fr2) = scanning_trigger (this fr1) ->
  last_trigger_cond (this fr2) = last_trigger_cond (this fr1) ->
  let out :=
    if g then
      if c then fire comm w fr2 else log_message SkippingTrigger fr2
    else (Return tt, fr1) in
  exists r,
    effects (snd out) = effects fr1 ++ r
    /\ tally is_close_log r = 0%nat
    /\ logged_conds r = []
    /\ scanning_trigger (this (snd out)) = scanning_trigger (this fr1)
    /\ last_trigger_cond (this (snd out)) = last_trigger_cond (this fr1).
Proof.
  intros He2 Hs2 Hl2. cbv zeta. destruct g.
  2:{ exists []. cbn [snd]. now rewrite app_nil_r. }
  rewrite <- He2, <- Hs2, <- Hl2. clear He2 Hs2 Hl2.
  destruct c.
  2:{ unfold log_message, emit. step_monad. cbn [snd effects this].
      eexists. split; [reflexivity|]. easy. }
  destruct (current_config fr2) as [d|] eqn:Hd.
  2:{ rewrite (fire_unbound _ _ comm w fr2 Hd). exists []. cbn [snd].
      now rewrite app_nil_r. }
  destruct (comm (link_peer w) (VDict d)) as [r|e|] eqn:Hr.
  - rewrite (fire_returns _ _ comm w fr2 d r Hd Hr). cbn [snd effects this].
    eexists. split; [reflexivity|]. destruct r; easy.
  - rewrite (fire_raises _ _ comm w fr2 d e Hd Hr). cbn [snd effects this].
    eexists. split; [reflexivity|]. easy.
  - rewrite (fire_blocks _ _ comm w fr2 d Hd Hr). cbn [snd effects this].
    eexists. split; [reflexivity|]. easy.
Qed.

(** What one pass does to the log and to [_last_trigger_cond]. *)
Lemma body_log w fr :
  exists new,
    effects (snd (body clean_json comm w fr)) = effects fr ++ new
    /\ tally is_close_log new = 0%nat
    /\ scanning_trigger (this (snd (body clean_json comm w fr)))
       = scanning_trigger (this fr)
    /\ ((logged_conds new = []
         /\ last_trigger_cond (this (snd (body clean_json comm w fr)))
            = last_trigger_cond (this fr))
        \/ (exists c,
              logged_conds new = [c]
              /\ c <> last_trigger_cond (this fr)
              /\ last_trigger_cond (this (snd (body clean_json comm w fr)))
                 = c)).
Proof.
  rewrite body_eq. cbv zeta.
  set (fr0 := drain clean_json (current_settings_queue (this fr)) fr).
  destruct (drain_signals _ clean_json (current_settings_queue (this fr)) fr)
    as (Hsig & Hscan & Hlast).
  fold fr0 in Hsig, Hscan, Hlast.
  assert (Heff0 : effects fr0 = effects fr) by apply drain_effects.
  assert (Hgate : gate (this fr0) = gate (this fr)).
  { unfold gate. unfold signals in Hsig. now injection Hsig as _ -> -> -> ->. }
  destruct (past_gate_quiet w (scanning_trigger (this fr) && gate (this fr))
              (confirmed w fr) (snd (trigger_condition fr0))
              (on_self (meanwhile w) (snd (trigger_condition fr0)))
              eq_refl eq_refl eq_refl)
    as (r & E1 & E2 & E3 & E4 & E5).
  cbv zeta in E1, E4, E5.
  set (out := if scanning_trigger (this fr) && gate (this fr)
              then if confirmed w fr
                   then fire comm w
                          (on_self (meanwhile w)
                             (snd (trigger_condition fr0)))
                   else log_message SkippingTrigger
                          (on_self (meanwhile w)
                             (snd (trigger_condition fr0)))
              else (Return tt, snd (trigger_condition fr0))) in *.
  rewrite E4, E5, E1. clear E1 E4 E5.
  rewrite (trigger_condition_eq fr0), Hscan, Hgate, Hlast.
  destruct (scanning_trigger (this fr)) eqn:Hs.
  2:{ cbn [snd]. exists r. rewrite Heff0, Hscan, Hlast. auto 10. }
  destruct (Bool.eqb (gate (this fr)) (last_trigger_cond (this fr))) eqn:He;
    cbn [snd effects this scanning_trigger last_trigger_cond
         set_last_trigger_cond].
  - exists r. rewrite Heff0, Hscan, Hlast. auto 10.
  - eexists. rewrite Heff0, <- app_assoc. split; [reflexivity|].
    split; [exact E2|]. split; [exact Hscan|].
    right. exists (gate (this fr)).
    split; [cbn; unfold logged_conds in E3; now rewrite E3|].
    split; [|reflexivity].
    intros E. rewrite E, Bool.eqb_reflx in He. discriminate.
Qed.

Lemma alternates_app (b : bool) (l1 l2 : list bool) :
  alternates b (l1 ++ l2)
  = alternates b l1 && alternates (default b (last l1)) l2.
Proof.
  revert b. induction l1 as [|c l1 IH]; intros b; [reflexivity|].
  cbn [app alternates]. rewrite IH, andb_assoc. f_equal. f_equal.
  rewrite (last_cons c l1). now destruct (last l1).
Qed.

Lemma logged_conds_app (a b : list effect) :
  logged_conds (a ++ b) = logged_conds a ++ logged_conds b.
Proof. apply omap_app. Qed.

Lemma tally_app {A : Type} (p : A -> bool) (a b : list A) :
  tally p (a ++ b) = (tally p a + tally p b)%nat.
Proof. unfold tally. now rewrite List.filter_app, length_app. Qed.

(** The log over a whole schedule: the loop itself never closes the log,
    each condition line differs from the one before, and
    [_last_trigger_cond] is the condition of the latest line. *)
Lemma loop_log (schedule : list (world settings peer)) fr :
  exists new,
    effects (snd (loop clean_json comm schedule fr)) = effects fr ++ new
    /\ tally is_close_log new = 0%nat
    /\ alternates (last_trigger_cond (this fr)) (logged_conds new) = true
    /\ last_trigger_cond (this (snd (loop clean_json comm schedule fr)))
       = default (last_trigger_cond (this fr)) (last (logged_conds new)).
Proof.
  revert fr. induction schedule as [|w later IH]; intros fr.
  - exists []. cbn. now rewrite app_nil_r.
  - rewrite loop_step. cbv zeta.
    set (fr' := on_self (others w) fr).
    assert (Heff : effects fr' = effects fr) by reflexivity.
    assert (Hlast : last_trigger_cond (this fr') = last_trigger_cond (this fr))
      by reflexivity.
    destruct (stop_event (this fr')).
    { exists []. cbn [snd]. rewrite Heff, Hlast, app_nil_r. easy. }
    destruct (body_log w fr') as (n1 & E1 & C1 & _ & L1).
    rewrite Heff, Hlast in *.
    assert (A1 : alternates (last_trigger_cond (this fr)) (logged_conds n1)
                 = true
                 /\ last_trigger_cond
                      (this (snd (body clean_json comm w fr')))
                    = default (last_trigger_cond (this fr))
                        (last (logged_conds n1))).
    { destruct L1 as [(-> & ->)|(c & -> & Hc & ->)]; [easy|].
      split; [|reflexivity]. cbn. rewrite andb_true_r.
      destruct c, (last_trigger_cond (this fr)); easy. }
    destruct A1 as (A1 & B1).
    destruct (body clean_json comm w fr') as [[[]|e|] fr''] eqn:Hb;
      cbn [snd] in *.
    + destruct (IH fr'') as (n2 & E2 & C2 & A2 & B2).
      exists (n1 ++ n2).
      rewrite E2, E1, <- app_assoc, tally_app, C1, C2, logged_conds_app,
        alternates_app, A1, <- B1, A2, B2, B1.
      repeat split. rewrite last_app.
      now destruct (last (logged_conds n2)).
    + exists n1. rewrite E1. easy.
    + exists n1. rewrite E1. easy.
Qed.

(** Over any schedule, consecutive "trigger_condition changed" lines never
    carry the same condition, and the first differs from the condition
    remembered at the start. *)
Theorem condition_lines_alternate (schedule : list (world settings peer)) fr :
  alternates (last_trigger_cond (this fr))
    (logged_conds (since fr (snd (run clean_json comm schedule fr))))
  = true.
Proof.
  unfold run, log_message, emit. step_monad. cbn [fst snd].
  match goal with
  | |- context [loop clean_json comm schedule ?f] =>
      destruct (loop_log schedule f) as (new & Heff & _ & Halt & _);
      destruct (loop clean_json comm schedule f) as [[st|e|] fr1]
  end; cbn [snd effects this last_trigger_cond] in *.
  - destruct st; cbn [snd effects].
    + erewrite since_app
        by (cbn [effects]; rewrite Heff, <- !app_assoc; reflexivity).
      rewrite !logged_conds_app. cbn. now rewrite app_nil_r.
    + erewrite since_app by (rewrite Heff, <- !app_assoc; reflexivity).
      rewrite logged_conds_app. exact Halt.
  - erewrite since_app by (rewrite Heff, <- !app_assoc; reflexivity).
    rewrite logged_conds_app. exact Halt.
  - erewrite since_app by (rewrite Heff, <- !app_assoc; reflexivity).
    rewrite logged_conds_app. exact Halt.
Qed.

Lemma loop_stopped (schedule : list (world settings peer)) fr :
  fst (loop clean_json comm schedule fr) = Return Stopped ->
  stop_event (this (snd (loop clean_json comm schedule fr))) = true.
Proof.
  revert fr. induction schedule as [|w later IH]; intros fr;
    [discriminate|].
  rewrite loop_step. cbv zeta.
  destruct (stop_event (this (on_self (others w) fr))) eqn:Hstop;
    [intros _; exact Hstop|].
  destruct (body clean_json comm w (on_self (others w) fr))
    as [[[]|e|] fr'']; [apply IH|discriminate|discriminate].
Qed.

(** [run] closes the log exactly when it leaves the loop because the stop
    event is set, and then closing it is the last thing it does; an
    exception leaves the log open. *)
Theorem log_closed_iff_stopped (schedule : list (world settings peer)) fr :
  let out := run clean_json comm schedule fr in
  (fst out = Return Stopped
   <-> tally is_close_log (since fr (snd out)) = 1%nat)
  /\ (fst out <> Return Stopped
      <-> tally is_close_log (since fr (snd out)) = 0%nat)
  /\ (fst out = Return Stopped ->
      stop_event (this (snd out)) = true
      /\ last (effects (snd out)) = Some CloseLog).
Proof.
  cbv zeta. unfold run, log_message, emit. step_monad. cbn [fst snd].
  match goal with
  | |- context [loop clean_json comm schedule ?f] =>
      destruct (loop_log schedule f) as (new & Heff & Hc & _);
      pose proof (loop_stopped schedule f) as Hstop;
      destruct (loop clean_json comm schedule f) as [[st|e|] fr1]
  end; cbn [fst snd effects this] in *.
  - destruct st; cbn [fst snd effects this].
    + erewrite since_app
        by (cbn [effects]; rewrite Heff, <- !app_assoc; reflexivity).
      rewrite !tally_app, Hc. cbn. repeat split; try easy.
      * now apply Hstop.
      * now rewrite last_snoc.
    + erewrite since_app by (rewrite Heff, <- !app_assoc; reflexivity).
      rewrite tally_app, Hc. cbn. repeat split; easy.
  - erewrite since_app by (rewrite Heff, <- !app_assoc; reflexivity).
    rewrite tally_app, Hc. cbn. repeat split; easy.
  - erewrite since_app by (rewrite Heff, <- !app_assoc; reflexivity).
    rewrite tally_app, Hc. cbn. repeat split; easy.
Qed.

(** [run] around the loop: the "started" line, what the loop appends, and
    the closing of the log when the loop was stopped. *)
Lemma run_since (schedule : list (world settings peer)) fr new :
  let inner := loop clean_json comm schedule (snd (log_message Started fr)) in
  effects (snd inner) = effects (snd (log_message Started fr)) ++ new ->
  fst (run clean_json comm schedule fr) = fst inner
  /\ this (snd (run clean_json comm schedule fr)) = this (snd inner)
  /\ exists tail,
       since fr (snd (run clean_json comm schedule fr))
       = [LogMessage Started] ++ new ++ tail
       /\ (tail = [] \/ tail = [CloseLog]).
Proof.
  cbv zeta. unfold run, log_message, emit. step_monad. cbn [fst snd effects].
  match goal with
  | |- context [loop clean_json comm schedule ?f] =>
      destruct (loop clean_json comm schedule f) as [[st|e|] fr1]
  end; cbn [fst snd effects this]; intros Heff.
  - destruct st; cbn [fst snd effects this].
    + repeat split. exists [CloseLog]. split; [|auto].
      apply since_app. cbn [effects]. now rewrite Heff, <- !app_assoc.
    + repeat split. exists []. split; [|auto].
      apply since_app. now rewrite Heff, app_nil_r, <- !app_assoc.
  - repeat split. exists []. split; [|auto].
    apply since_app. now rewrite Heff, app_nil_r, <- !app_assoc.
  - repeat split. exists []. split; [|auto].
    apply since_app. now rewrite Heff, app_nil_r, <- !app_assoc.
Qed.

(** When the loop was not stopped, [run] adds nothing after it. *)
Lemma run_since_unstopped (schedule : list (world settings peer)) fr new :
  let inner := loop clean_json comm schedule (snd (log_message Started fr)) in
  effects (snd inner) = effects (snd (log_message Started fr)) ++ new ->
  fst inner <> Return Stopped ->
  since fr (snd (run clean_json comm schedule fr))
  = [LogMessage Started] ++ new.
Proof.
  cbv zeta. unfold run, log_message, emit. step_monad. cbn [fst snd effects].
  match goal with
  | |- context [loop clean_json comm schedule ?f] =>
      destruct (loop clean_json comm schedule f) as [[st|e|] fr1]
  end; cbn [fst snd effects this]; intros Heff Hst.
  - destruct st; [congruence|]. cbn [fst snd effects this].
    apply since_app. now rewrite Heff, <- !app_assoc.
  - apply since_app. now rewrite Heff, <- !app_assoc.
  - apply since_app. now rewrite Heff, <- !app_assoc.
Qed.

Lemma protocol_app (a b : list effect) :
  protocol (a ++ b) = protocol a ++ protocol b.
Proof. unfold protocol. apply List.filter_app. Qed.

Lemma protocol_silent (l : list effect) :
  link_calls l = [] -> durations l = [] -> clears l = 0%nat ->
  protocol l = [].
Proof.
  induction l as [|e l IH]; [reflexivity|].
  destruct e; cbn; try discriminate; exact IH.
Qed.

Lemma closed_rounds_app (a b : list effect) :
  closed_rounds a -> closed_rounds b -> closed_rounds (a ++ b).
Proof.
  intros Ha Hb. induction Ha as [|c rest _ IH|c x rest _ IH];
    [exact Hb| |]; cbn; now constructor.
Qed.

Lemma rounds_app (a b : list effect) :
  closed_rounds a -> rounds b -> rounds (a ++ b).
Proof.
  intros Ha [l Hl|l c Hl].
  - apply rounds_closed. now apply closed_rounds_app.
  - rewrite app_assoc. apply rounds_open. now apply closed_rounds_app.
Qed.



Lemma counts_protocol (l : list effect) :
  link_calls (protocol l) = link_calls l
  /\ durations (protocol l) = durations l
  /\ clears (protocol l) = clears l.
Proof.
  unfold link_calls, durations, clears, protocol.
  induction l as [|e l (IH1 & IH2 & IH3)]; [easy|].
  destruct e; cbn; rewrite ?IH1, ?IH2, ?IH3; auto.
Qed.

(** What one pass contributes to the protocol, for use over a schedule. *)
Lemma body_rounds w fr :
  exists new,
    effects (snd (body clean_json comm w fr)) = effects fr ++ new
    /\ (protocol new = []
        \/ (exists c, protocol new = [LinkCall c]
                      /\ forall r, fst (body clean_json comm w fr)
                                   <> Return r)
        \/ (exists c, protocol new = [LinkCall c; StartCommClear]
                      /\ fst (body clean_json comm w fr) = Return tt)
        \/ (exists c x,
              protocol new = [LinkCall c; DurationPut x; StartCommClear]
              /\ fst (body clean_json comm w fr) = Return tt)).
Proof.
  destruct (body_cases _ clean_json _ comm w fr)
    as (line & Hl1 & Hl2 & Hl3 & _ & [H|[H|[H|[H|[H|H]]]]]);
    pose proof (protocol_silent line Hl1 Hl2 Hl3) as Hline.
  - destruct H as (_ & _ & Heff & _). exists line. auto.
  - destruct H as (_ & _ & _ & Heff & _). eexists. split; [exact Heff|].
    rewrite protocol_app, Hline. now left.
  - destruct H as (_ & _ & _ & _ & Heff & _). exists line. auto.
  - destruct H as (d & r & _ & _ & _ & _ & Hret & Heff & _).
    eexists. split; [exact Heff|]. rewrite protocol_app, Hline.
    destruct r as [x|]; cbn; [right; right; right|right; right; left];
      eauto.
  - destruct H as (d & e & _ & _ & _ & _ & Hret & Heff & _).
    eexists. split; [exact Heff|]. rewrite protocol_app, Hline. cbn.
    right; left. eexists. split; [reflexivity|]. congruence.
  - destruct H as (d & _ & _ & _ & _ & Hret & Heff & _).
    eexists. split; [exact Heff|]. rewrite protocol_app, Hline. cbn.
    right; left. eexists. split; [reflexivity|]. congruence.
Qed.


Lemma loop_rounds (schedule : list (world settings peer)) fr :
  exists new,
    effects (snd (loop clean_json comm schedule fr)) = effects fr ++ new
    /\ (length (link_calls new) <= length schedule)%nat
    /\ rounds (protocol new)
    /\ (forall st, fst (loop clean_json comm schedule fr) = Return st ->
        closed_rounds (protocol new)).
Proof.
  revert fr. induction schedule as [|w later IH]; intros fr.
  - exists []. cbn. rewrite app_nil_r.
    repeat split; auto; repeat constructor.
  - rewrite loop_step. cbv zeta.
    set (fr' := on_self (others w) fr).
    assert (Heff : effects fr' = effects fr) by reflexivity.
    destruct (stop_event (this fr')).
    { exists []. cbn [snd fst]. rewrite Heff, app_nil_r. cbn.
      repeat split; try lia; repeat constructor. }
    destruct (body_rounds w fr') as (n1 & E1 & B).
    rewrite Heff in E1.
    assert (Hcalls : length (link_calls n1) = length (link_calls (protocol n1)))
      by (now destruct (counts_protocol n1) as (-> & _)).
    destruct (body clean_json comm w fr') as [[[]|e|] fr''] eqn:Hb;
      cbn [fst snd] in *.
    + destruct (IH fr'') as (n2 & E2 & K1 & K2 & K3).
      assert (Hc1 : closed_rounds (protocol n1)
                    /\ (length (link_calls (protocol n1)) <= 1)%nat).
      { destruct B as [->|[(c & _ & Hno)|[(c & -> & _)|(c & x & -> & _)]]];
          try (split; [repeat constructor|cbn; lia]).
        now destruct (Hno tt). }
      destruct Hc1 as (Hc1 & Hn1).
      exists (n1 ++ n2).
      rewrite E2, E1, <- app_assoc, protocol_app, link_calls_app, length_app.
      split; [reflexivity|]. split; [cbn [length]; lia|].
      split; [now apply rounds_app|].
      intros st Hst. apply closed_rounds_app; [exact Hc1|eauto].
    + exists n1. rewrite E1. split; [reflexivity|].
      assert (Hr : rounds (protocol n1)
                   /\ (length (link_calls (protocol n1)) <= 1)%nat).
      { destruct B as [->|[(c & -> & _)|[(c & _ & Hret)|(c & x & _ & Hret)]]];
          try discriminate.
        - split; [repeat constructor|cbn; lia].
        - split; [apply (rounds_open [] c); constructor|cbn; lia]. }
      destruct Hr as (Hr & Hn1).
      split; [cbn [length]; lia|]. split; [exact Hr|discriminate].
    + exists n1. rewrite E1. split; [reflexivity|].
      assert (Hr : rounds (protocol n1)
                   /\ (length (link_calls (protocol n1)) <= 1)%nat).
      { destruct B as [->|[(c & -> & _)|[(c & _ & Hret)|(c & x & _ & Hret)]]];
          try discriminate.
        - split; [repeat constructor|cbn; lia].
        - split; [apply (rounds_open [] c); constructor|cbn; lia]. }
      destruct Hr as (Hr & Hn1).
      split; [cbn [length]; lia|]. split; [exact Hr|discriminate].
Qed.


Lemma loop_appends (schedule : list (world settings peer)) fr :
  exists new,
    effects (snd (loop clean_json comm schedule fr)) = effects fr ++ new.
Proof.
  destruct (loop_rounds schedule fr) as (new & E & _). eauto.
Qed.

(** A pass with the mode off or the gate closed returns without touching
    the link, the duration queue or any event. *)
Lemma body_idle w fr :
  scanning_trigger (this fr) && gate (this fr) = false ->
  fst (body clean_json comm w fr) = Return tt
  /\ signals (this (snd (body clean_json comm w fr))) = signals (this fr)
  /\ scanning_trigger (this (snd (body clean_json comm w fr)))
     = scanning_trigger (this fr)
  /\ exists new,
       effects (snd (body clean_json comm w fr)) = effects fr ++ new
       /\ link_calls new = [] /\ durations new = [] /\ clears new = 0%nat.
Proof.
  intros Hg.
  destruct (body_log w fr) as (_ & _ & _ & Hscan & _).
  destruct (body_cases _ clean_json _ comm w fr)
    as (line & Hl1 & Hl2 & Hl3 & _ & [H|[H|[H|[H|[H|H]]]]]).
  - destruct H as (_ & Hret & Heff & Hsig). eauto 10.
  - destruct H as (Hg' & _). congruence.
  - destruct H as (Hg' & _). congruence.
  - destruct H as (d & r & Hg' & _). congruence.
  - destruct H as (d & e & Hg' & _). congruence.
  - destruct H as (d & Hg' & _). congruence.
Qed.

(** While a condition that keeps the gate shut holds, and the rest of the
    system does not undo it, the loop runs through the schedule without
    raising and without firing. *)
Lemma loop_idle (idle : self settings -> Prop)
  (schedule : list (world settings peer)) :
  (forall s, idle s -> scanning_trigger s && gate s = false) ->
  (forall s s', scanning_trigger s' = scanning_trigger s ->
                signals s' = signals s -> idle s -> idle s') ->
  (forall w, In w schedule -> forall s, idle s -> idle (others w s)) ->
  forall fr,
    idle (this fr) ->
    (exists st, fst (loop clean_json comm schedule fr) = Return st)
    /\ exists new,
         effects (snd (loop clean_json comm schedule fr)) = effects fr ++ new
         /\ link_calls new = [] /\ durations new = []
         /\ clears new = 0%nat.
Proof.
  intros Hshut Hext. induction schedule as [|w later IH]; intros Hkeep fr Hidle.
  - split; [eexists; reflexivity|]. exists []. cbn. now rewrite app_nil_r.
  - rewrite loop_step. cbv zeta.
    set (fr' := on_self (others w) fr).
    assert (Heff : effects fr' = effects fr) by reflexivity.
    assert (Hidle' : idle (this fr'))
      by (apply Hkeep; [now left|exact Hidle]).
    destruct (stop_event (this fr')).
    { split; [eexists; reflexivity|]. exists []. cbn [snd].
      now rewrite Heff, app_nil_r. }
    destruct (body_idle w fr' (Hshut _ Hidle'))
      as (Hret & Hsig & Hscan & n1 & E1 & C1 & D1 & L1).
    destruct (body clean_json comm w fr') as [[[]|e|] fr''] eqn:Hb;
      cbn [fst snd] in *; [|discriminate|discriminate].
    destruct (IH (fun w' Hin => Hkeep w' (or_intror Hin)) fr'')
      as (Hst & n2 & E2 & C2 & D2 & L2).
    { exact (Hext _ _ Hscan Hsig Hidle'). }
    split; [exact Hst|]. exists (n1 ++ n2).
    rewrite E2, E1, Heff, <- app_assoc, link_calls_app, durations_app,
      clears_app, C1, C2, D1, D2, L1, L2. easy.
Qed.

Lemma run_idle (idle : self settings -> Prop)
  (schedule : list (world settings peer)) fr :
  (forall s, idle s -> scanning_trigger s && gate s = false) ->
  (forall s s', scanning_trigger s' = scanning_trigger s ->
                signals s' = signals s -> idle s -> idle s') ->
  (forall w, In w schedule -> forall s, idle s -> idle (others w s)) ->
  idle (this fr) ->
  let out := run clean_json comm schedule fr in
  (exists st, fst out = Return st)
  /\ link_calls (since fr (snd out)) = []
  /\ durations (since fr (snd out)) = []
  /\ clears (since fr (snd out)) = 0%nat.
Proof.
  intros Hshut Hext Hkeep Hidle. cbv zeta.
  destruct (loop_idle idle schedule Hshut Hext Hkeep
              (snd (log_message Started fr)) Hidle)
    as (Hst & new & Heff & C & D & L).
  destruct (run_since schedule fr new Heff) as (Hfst & _ & tail & -> & Htail).
  rewrite Hfst. split; [exact Hst|].
  rewrite !link_calls_app, !durations_app, !clears_app, C, D, L.
  destruct Htail as [->| ->]; easy.
Qed.

(** With scanning-trigger mode off, [run] never calls the link, delivers
    nothing, clears nothing and never raises, whatever the events do and
    whatever is published. *)
Theorem mode_off_never_fires (schedule : list (world settings peer)) fr :
  scanning_trigger (this fr) = false ->
  let out := run clean_json comm schedule fr in
  (exists st, fst out = Return st)
  /\ link_calls (since fr (snd out)) = []
  /\ durations (since fr (snd out)) = []
  /\ clears (since fr (snd out)) = 0%nat.
Proof.
  intros Hoff.
  apply (run_idle (fun s => scanning_trigger s = false)).
  - now intros s ->.
  - intros s s' E _ H. congruence.
  - intros w _ s H. exact H.
  - exact Hoff.
Qed.

(** As long as nobody sets [is_triggered_event], which [__init__] creates
    clear, [run] never calls the link, delivers nothing, clears nothing
    and never raises. *)
Theorem untriggered_never_fires (schedule : list (world settings peer)) fr :
  is_triggered_event (this fr) = false ->
  Forall (fun w => write_triggered w <> Some true) schedule ->
  let out := run clean_json comm schedule fr in
  (exists st, fst out = Return st)
  /\ link_calls (since fr (snd out)) = []
  /\ durations (since fr (snd out)) = []
  /\ clears (since fr (snd out)) = 0%nat.
Proof.
  intros Hclear Hnobody.
  apply (run_idle (fun s => is_triggered_event s = false)).
  - intros s H. unfold gate. rewrite H.
    now rewrite andb_false_r, andb_false_l, andb_false_r.
  - intros s s' _ E H. unfold signals in E. injection E as _ _ _ -> _.
    exact H.
  - intros w Hin s H. rewrite Forall_forall in Hnobody.
    specialize (Hnobody w (proj2 (list_elem_of_In _ _) Hin)).
    cbn. rewrite H. destruct (write_triggered w) as [[]|]; easy.
  - exact Hclear.
Qed.

(** A start pulse is used once: after a pass that cleared the start event,
    the next pass calls no link, delivers nothing and returns, unless the
    start event was set again in between. *)
Theorem start_pulse_not_reused w1 w2 fr :
  let fr1 := snd (body clean_json comm w1 fr) in
  let fr2 := on_self (others w2) fr1 in
  clears (since fr fr1) = 1%nat ->
  write_start w2 <> Some true ->
  start_comm (this fr1) = false
  /\ fst (body clean_json comm w2 fr2) = Return tt
  /\ link_calls (since fr2 (snd (body clean_json comm w2 fr2))) = []
  /\ durations (since fr2 (snd (body clean_json comm w2 fr2))) = [].
Proof.
  cbv zeta. intros Hclr Hw2.
  assert (Hstart : start_comm (this (snd (body clean_json comm w1 fr)))
                   = false).
  { destruct (body_cases _ clean_json _ comm w1 fr)
      as (line & Hl1 & Hl2 & Hl3 & _ & [H|[H|[H|[H|[H|H]]]]]).
    - destruct H as (_ & _ & Heff & _).
      rewrite (since_app _ _ _ _ Heff), Hl3 in Hclr. discriminate.
    - destruct H as (_ & _ & _ & Heff & _).
      rewrite (since_app _ _ _ _ Heff), clears_app, Hl3 in Hclr.
      discriminate.
    - destruct H as (_ & _ & _ & _ & Heff & _).
      rewrite (since_app _ _ _ _ Heff), Hl3 in Hclr. discriminate.
    - destruct H as (d & r & _ & _ & _ & _ & _ & _ & Hst). exact Hst.
    - destruct H as (d & e & _ & _ & _ & _ & _ & Heff & _).
      rewrite (since_app _ _ _ _ Heff), clears_app, Hl3 in Hclr.
      discriminate.
    - destruct H as (d & _ & _ & _ & _ & _ & Heff & _).
      rewrite (since_app _ _ _ _ Heff), clears_app, Hl3 in Hclr.
      discriminate. }
  split; [exact Hstart|].
  set (fr2 := on_self (others w2) (snd (body clean_json comm w1 fr))).
  assert (Hshut : scanning_trigger (this fr2) && gate (this fr2) = false).
  { unfold gate. cbn. rewrite Hstart.
    destruct (write_start w2) as [[]|]; [congruence| |];
      now rewrite andb_false_r. }
  destruct (body_idle w2 fr2 Hshut) as (Hret & _ & _ & new & E & C & D & _).
  now rewrite (since_app _ _ _ _ E).
Qed.

(** With nothing new on the settings queue a pass keeps the request of the
    pass before: any link call carries it, and the pass can raise only if
    the link does. *)
Theorem request_kept_without_settings w fr (d : gmap string value) :
  current_settings_queue (this fr) = [] ->
  current_config fr = Some d ->
  let out := body clean_json comm w fr in
  current_config (snd out) = Some d
  /\ Forall (fun c => c = VDict d) (link_calls (since fr (snd out)))
  /\ (forall e, fst out = Raise e ->
      comm (link_peer w) (VDict d) = Raise e).
Proof.
  cbv zeta. intros Hq Hd.
  assert (Hd0 : current_config
                  (drain clean_json (current_settings_queue (this fr)) fr)
                = Some d) by now rewrite Hq.
  destruct (body_cases _ clean_json _ comm w fr)
    as (line & Hl1 & Hl2 & Hl3 & Hcc & [H|[H|[H|[H|[H|H]]]]]);
    rewrite Hd0 in *; (split; [exact Hcc|]).
  - destruct H as (_ & Hret & Heff & _).
    rewrite (since_app _ _ _ _ Heff), Hl1. split; [constructor|congruence].
  - destruct H as (_ & _ & Hret & Heff & _).
    rewrite (since_app _ _ _ _ Heff), link_calls_app, Hl1.
    split; [constructor|congruence].
  - destruct H as (_ & _ & Hnone & _). discriminate.
  - destruct H as (d' & r & _ & _ & [= <-] & _ & Hret & Heff & _).
    rewrite (since_app _ _ _ _ Heff), link_calls_app, Hl1.
    split; [destruct r; repeat constructor|congruence].
  - destruct H as (d' & e & _ & _ & [= <-] & Hr & Hret & Heff & _).
    rewrite (since_app _ _ _ _ Heff), link_calls_app, Hl1.
    split; [repeat constructor|]. intros e' He'. congruence.
  - destruct H as (d' & _ & _ & [= <-] & Hr & Hret & Heff & _).
    rewrite (since_app _ _ _ _ Heff), link_calls_app, Hl1.
    split; [repeat constructor|]. intros e' He'. congruence.
Qed.

(** Nothing unbinds the request: if it is missing after the drain of a
    pass, it was missing when the pass began. *)
Lemma unbound_since_start w fr :
  current_config (snd (body clean_json comm w fr)) = None ->
  current_config fr = None.
Proof.
  destruct (body_cases _ clean_json _ comm w fr) as (_ & _ & _ & _ & -> & _).
  destruct (drain_latest _ clean_json (current_settings_queue (this fr)) fr)
    as (-> & _).
  now destruct (last (current_settings_queue (this fr))).
Qed.

Lemma loop_raises_only (schedule : list (world settings peer)) fr e :
  fst (loop clean_json comm schedule fr) = Raise e ->
  (e = UnboundLocalError /\ current_config fr = None)
  \/ exists w d, In w schedule /\ comm (link_peer w) (VDict d) = Raise e.
Proof.
  revert fr. induction schedule as [|w later IH]; intros fr;
    [discriminate|].
  rewrite loop_step. cbv zeta.
  set (fr' := on_self (others w) fr).
  destruct (stop_event (this fr')); [discriminate|].
  pose proof (pass_raises_only _ clean_json _ comm w fr') as Hpass.
  pose proof (unbound_since_start w fr') as Hun.
  destruct (body clean_json comm w fr') as [[[]|e'|] fr''] eqn:Hb;
    cbn [fst snd] in *.
  - intros H. destruct (IH fr'' H) as [(-> & Hnone)|(w' & d & Hin & Hr)].
    + left. split; [reflexivity|]. exact (Hun Hnone).
    + right. exists w', d. split; [now right|exact Hr].
  - intros [= ->]. destruct (Hpass e eq_refl) as [(Hnone & ->)|(d & _ & Hr)].
    + left. split; [reflexivity|].
      destruct (drain_latest _ clean_json
                  (current_settings_queue (this fr')) fr') as (Hl & _).
      rewrite Hl in Hnone.
      destruct (last (current_settings_queue (this fr'))); [discriminate|].
      exact Hnone.
    + right. exists w, d. split; [now left|exact Hr].
  - discriminate.
Qed.

(** A pass does not come back only when the link does not. *)
Lemma pass_blocks_only w fr :
  fst (body clean_json comm w fr) = Blocks ->
  exists d, comm (link_peer w) (VDict d) = Blocks.
Proof.
  intros Hb.
  destruct (body_cases _ clean_json _ comm w fr)
    as (line & _ & _ & _ & _ & [H|[H|[H|[H|[H|H]]]]]).
  - destruct H as (_ & Hret & _). congruence.
  - destruct H as (_ & _ & Hret & _). congruence.
  - destruct H as (_ & _ & _ & Hret & _). congruence.
  - destruct H as (d & r & _ & _ & _ & _ & Hret & _). congruence.
  - destruct H as (d & e & _ & _ & _ & _ & Hret & _). congruence.
  - destruct H as (d & _ & _ & _ & Hr & _). eauto.
Qed.

Lemma loop_blocks_only (schedule : list (world settings peer)) fr :
  fst (loop clean_json comm schedule fr) = Blocks ->
  exists w d, In w schedule /\ comm (link_peer w) (VDict d) = Blocks.
Proof.
  revert fr. induction schedule as [|w later IH]; intros fr;
    [discriminate|].
  rewrite loop_step. cbv zeta.
  set (fr' := on_self (others w) fr).
  destruct (stop_event (this fr')); [discriminate|].
  pose proof (pass_blocks_only w fr') as Hpass.
  destruct (body clean_json comm w fr') as [[[]|e'|] fr''] eqn:Hb;
    cbn [fst snd] in *.
  - intros H. destruct (IH fr'' H) as (w' & d & Hin & Hr).
    exists w', d. split; [now right|exact Hr].
  - discriminate.
  - intros _. destruct (Hpass eq_refl) as (d & Hr).
    exists w, d. split; [now left|exact Hr].
Qed.

(** A pass that fires on a link which does not come back: [run] does not
    come back either, whatever the schedule holds after that pass. The
    request was handed to the link; nothing is put, the start event is not
    cleared and the log is not closed. *)
Lemma run_blocks_at w (later : list (world settings peer)) fr
  (d : gmap string value) :
  let fr' := on_self (others w) (snd (log_message Started fr)) in
  stop_event (this fr') = false ->
  scanning_trigger (this fr') && gate (this fr') = true ->
  confirmed w fr' = true ->
  current_config (drain clean_json (current_settings_queue (this fr')) fr')
  = Some d ->
  comm (link_peer w) (VDict d) = Blocks ->
  let out := run clean_json comm (w :: later) fr in
  fst out = Blocks
  /\ protocol (since fr (snd out)) = [LinkCall (VDict d)]
  /\ tally is_close_log (since fr (snd out)) = 0%nat
  /\ signals (this (snd out)) = signals (meanwhile w (this fr')).
Proof.
  cbv zeta. intros Hstop Hg Hc Hd Hr.
  set (fr0 := snd (log_message Started fr)) in *.
  set (fr' := on_self (others w) fr0) in *.
  assert (Hloop : fst (loop clean_json comm (w :: later) fr0) = Blocks
                  /\ signals (this (snd (loop clean_json comm (w :: later)
                                           fr0)))
                     = signals (meanwhile w (this fr'))
                  /\ exists line,
                       protocol line = []
                       /\ tally is_close_log line = 0%nat
                       /\ effects (snd (loop clean_json comm (w :: later)
                                          fr0))
                          = effects fr0 ++ line
                            ++ [Stdout (SendingTrigger
                                          (map fst (map_to_list d)));
                                LinkCall (VDict d)]).
  { rewrite loop_step. cbv zeta. fold fr'. rewrite Hstop.
    destruct (body_log w fr') as (new & Heff' & Hclose & _).
    destruct (body_cases _ clean_json _ comm w fr')
      as (line & Hl1 & Hl2 & Hl3 & _ & [H|[H|[H|[H|[H|H]]]]]).
    - destruct H as (Hg' & _). congruence.
    - destruct H as (_ & Hc' & _). congruence.
    - destruct H as (_ & _ & Hd' & _). congruence.
    - destruct H as (d' & r & _ & _ & Hd' & Hr' & _). congruence.
    - destruct H as (d' & e & _ & _ & Hd' & Hr' & _). congruence.
    - destruct H as (d' & _ & _ & Hd' & _ & Hret & Heff & Hsig).
      assert (d' = d) as -> by congruence.
      rewrite Heff in Heff'. apply app_inv_head in Heff'. subst new.
      rewrite tally_app in Hclose.
      destruct (body clean_json comm w fr') as [[[]|e|] fr''];
        cbn [fst snd] in *; try discriminate.
      split; [reflexivity|]. split; [exact Hsig|].
      exists line. split; [now apply protocol_silent|].
      split; [lia|exact Heff]. }
  destruct Hloop as (Hfst & Hsig & line & Hp & Hclose & Heff).
  destruct (run_since (w :: later) fr _ Heff) as (Hrun & Hthis & _).
  rewrite (run_since_unstopped (w :: later) fr _ Heff)
    by (fold fr0; rewrite Hfst; discriminate).
  fold fr0 in Hrun, Hthis. rewrite Hrun, Hthis.
  split; [exact Hfst|]. rewrite !protocol_app, !tally_app, Hp, Hclose.
  split; [reflexivity|]. split; [reflexivity|exact Hsig].
Qed.

(** [run] fails to come back only when a call of the link does. *)
Lemma run_blocks_only (schedule : list (world settings peer)) fr :
  fst (run clean_json comm schedule fr) = Blocks ->
  exists w d, In w schedule /\ comm (link_peer w) (VDict d) = Blocks.
Proof.
  destruct (loop_appends schedule (snd (log_message Started fr)))
    as (new & Heff).
  destruct (run_since schedule fr new Heff) as (-> & _).
  apply loop_blocks_only.
Qed.

(** [run] can end with an exception in two ways only: the gate opened while
    no request had ever been built, or the link raised. *)
Lemma run_raises_only (schedule : list (world settings peer)) fr e :
  fst (run clean_json comm schedule fr) = Raise e ->
  (e = UnboundLocalError /\ current_config fr = None)
  \/ exists w d, In w schedule /\ comm (link_peer w) (VDict d) = Raise e.
Proof.
  destruct (loop_appends schedule (snd (log_message Started fr)))
    as (new & Heff).
  destruct (run_since schedule fr new Heff) as (-> & _).
  intros H.
  destruct (loop_raises_only schedule _ e H) as [(He & Hnone)|Hlink].
  - left. split; [exact He|exact Hnone].
  - now right.
Qed.

End CoordinatorMore.

Section WiredMore.
Import Py Eff ExternalComm Wired.

Variable float_of_str : string -> option spec_float.
Variable address : string.
Variable settings : Type.
Variable clean_json : settings -> value.

(** With the network link behind it, and with a [clean_json] and a logger
    that return, an exception that ends [run] is the [UnboundLocalError] of
    a gate that opened before any request was built, or comes out of the
    call of the link: out of [connect], out of [send_json], out of
    [recv_json] (a [JSONDecodeError] or another exception), or out of the
    [print] of a reply the console cannot encode. *)
Theorem run_ended_only_by
  (schedule : list (world settings Stytra.exchange)) (fr : frame settings)
  (e : exn) :
  fst (run clean_json (comm float_of_str address) schedule fr) = Raise e ->
  (e = UnboundLocalError /\ current_config fr = None)
  \/ exists w,
       In w schedule
       /\ (link_peer w = Stytra.ConnectFails e
           \/ link_peer w = Stytra.SendFails e
           \/ (link_peer w = Stytra.Undecodable /\ e = JSONDecodeError)
           \/ link_peer w = Stytra.Unreadable e
           \/ ((exists s, link_peer w = Stytra.Unprintable s)
               /\ e = UnicodeEncodeError)).
Proof.
  intros H.
  destruct (run_raises_only _ clean_json _ _ schedule fr e H)
    as [Hun|(w & d & Hin & Hr)]; [now left|].
  right. exists w. split; [exact Hin|].
  unfold comm in Hr. now apply call_raise_cause in Hr.
Qed.

(** A peer that never takes the request stops the coordinator for good:
    in the first pass that fires on it, the request is handed to the link,
    [destroy()] does not come back, and so neither does [run]. Nothing is
    put on the duration queue, the start event is not cleared by the
    coordinator, the log is not closed, and the stop event is never looked
    at again, whatever is published or signalled afterwards. *)
Theorem undelivered_request_hangs_run w
  (later : list (world settings Stytra.exchange)) (fr : frame settings)
  (d : gmap string value) :
  let fr' := on_self (others w) (snd (log_message Started fr)) in
  stop_event (this fr') = false ->
  scanning_trigger (this fr') && gate (this fr') = true ->
  confirmed w fr' = true ->
  current_config (drain clean_json (current_settings_queue (this fr')) fr')
  = Some d ->
  link_peer w = Stytra.Undelivered ->
  let out := run clean_json (comm float_of_str address) (w :: later) fr in
  fst out = Blocks
  /\ Trace.protocol (since fr (snd out)) = [LinkCall (VDict d)]
  /\ Trace.tally Trace.is_close_log (since fr (snd out)) = 0%nat
  /\ signals (this (snd out)) = signals (meanwhile w (this fr')).
Proof.
  cbv zeta. intros Hstop Hg Hc Hd Hpeer.
  apply run_blocks_at; try assumption.
  rewrite Hpeer. unfold comm. now rewrite call_undelivered.
Qed.

(** Once a request exists, [run] comes back from any schedule of peers
    that take the request and then stay silent or send a reply which is
    decoded and printed: it returns, stopped or still running, whatever the
    replies hold. A peer that never takes the request is another matter:
    the call of the link does not come back from it. *)
Theorem run_survives_answering_peers
  (schedule : list (world settings Stytra.exchange)) (fr : frame settings)
  (d : gmap string value) :
  current_config fr = Some d ->
  Forall (fun w => link_peer w = Stytra.NoReply
                   \/ exists body, link_peer w = Stytra.Reply body) schedule ->
  exists st,
    fst (run clean_json (comm float_of_str address) schedule fr) = Return st.
Proof.
  intros Hd Hpeers.
  rewrite Forall_forall in Hpeers.
  destruct (fst (run clean_json (comm float_of_str address) schedule fr))
    as [st|e|] eqn:Hrun; [eauto|exfalso|exfalso].
  - destruct (run_raises_only _ clean_json _ _ schedule fr e Hrun)
      as [(_ & Hnone)|(w & d' & Hin & Hw)]; [congruence|].
    unfold comm in Hw. apply call_raise_cause in Hw.
    specialize (Hpeers w (proj2 (list_elem_of_In _ _) Hin)).
    destruct Hpeers as [Hp|(body & Hp)]; rewrite Hp in Hw;
      destruct Hw as [Hw|[Hw|[(Hw & _)|[Hw|((s & Hw) & _)]]]];
      discriminate.
  - destruct (run_blocks_only _ clean_json _ _ schedule fr Hrun)
      as (w & d' & Hin & Hw).
    unfold comm in Hw. apply call_blocks_cause in Hw.
    specialize (Hpeers w (proj2 (list_elem_of_In _ _) Hin)).
    destruct Hpeers as [Hp|(body & Hp)]; rewrite Hp in Hw; discriminate.
Qed.

End WiredMore.

(** * The camera scripts *)

Section CameraScriptsFacts.
Import CameraScripts.

Context {V : Type} `{EqDecision V}.
Variable str : V -> string.

(** [get_text_name] returns the name of the first item that carries the
    value, and the placeholder when no item does. *)
Theorem get_text_name_first_match (value : V)
  (before after : list (string * V)) (name : string) :
  Forall (fun item => snd item <> value) before ->
  get_text_name str value (before ++ (name, value) :: after) = name
  /\ get_text_name str value before = unknown str value.
Proof.
  intros Hb. induction Hb as [|[n v] before Hv Hb [IH1 IH2]].
  - cbn. now rewrite bool_decide_eq_true_2.
  - cbn in *. now rewrite bool_decide_eq_false_2.
Qed.

(** A name found by [get_text_name] does carry the value. *)
Theorem get_text_name_sound (value : V) (text_dict : list (string * V)) :
  (exists name, In (name, value) text_dict) ->
  In (get_text_name str value text_dict, value) text_dict.
Proof.
  induction text_dict as [|[n v] rest IH]; intros (name & Hin);
    [destruct Hin|].
  cbn. destruct (bool_decide_reflect (v = value)) as [->|Hne].
  - now left.
  - right. apply IH. destruct Hin as [[= -> ->]|Hin]; [congruence|eauto].
Qed.

(** The list comprehension of [check_trigger_properties.py] names a value
    as [get_text_name] does. *)
Theorem current_name_is_get_text_name (value : V)
  (text_dict : list (string * V)) :
  current_name str value text_dict = get_text_name str value text_dict.
Proof.
  unfold current_name.
  induction text_dict as [|[n v] rest IH]; [reflexivity|].
  cbn. destruct (bool_decide (v = value)); [reflexivity|exact IH].
Qed.

End CameraScriptsFacts.

(** * The further properties on concrete inputs *)

Lemma envelope_as_bare_with_quoted_field :
  Cases.quoted !! "duration"%string = Some (Py.VStr "inf")
  /\ (fst (Stytra.trigger_and_receive_duration Scenario.keywords
             Scenario.address (Stytra.Reply (Py.VDict Cases.quoted))
             Py.VNone [])
      = fst (Stytra.trigger_and_receive_duration Scenario.keywords
               Scenario.address (Stytra.Reply (Py.VStr "inf")) Py.VNone [])
      /\ forall s, Py.VStr "inf" = Py.VStr s ->
           fst (Stytra.trigger_and_receive_duration Scenario.keywords
                  Scenario.address (Stytra.Unprintable s) Py.VNone [])
           = Py.Raise Py.UnicodeEncodeError
           /\ fst (Stytra.trigger_and_receive_duration Scenario.keywords
                     Scenario.address (Stytra.Reply (Py.VDict Cases.quoted))
                     Py.VNone [])
              = Py.Return (match Scenario.keywords s with
                           | Some f => if Py.isfinite f then Some f else None
                           | None => None
                           end)).
Proof.
  split; [vm_compute; reflexivity|].
  apply (envelope_as_bare Scenario.keywords Scenario.address Py.VNone []
           Cases.quoted (Py.VStr "inf")).
  - vm_compute; reflexivity.
  - intros d' H. discriminate H.
Defined.

Lemma envelope_opened_once_on_nested :
  Cases.nested !! "duration"%string
  = Some (Py.VDict {[ "duration"%string
                        := Py.VFloat Scenario.two_and_a_half ]})
  /\ fst (Stytra.trigger_and_receive_duration Scenario.keywords
            Scenario.address (Stytra.Reply (Py.VDict Cases.nested))
            Py.VNone [])
     = Py.Return None.
Proof.
  split; [vm_compute; reflexivity|].
  apply (envelope_opened_once Scenario.keywords Scenario.address Py.VNone []
           Cases.nested
           (Py.VDict {[ "duration"%string
                          := Py.VFloat Scenario.two_and_a_half ]})).
  - vm_compute; reflexivity.
  - right. right. eexists. reflexivity.
Defined.

Lemma integer_reply_exact_at_3 :
  (Z.abs 3 < 2 ^ 53)%Z
  /\ exists f,
       Num.exact_int f 3
       /\ fst (Stytra.trigger_and_receive_duration Scenario.keywords
                 Scenario.address (Stytra.Reply (Py.VInt 3)) Py.VNone [])
          = Py.Return (Some f)
       /\ fst (Stytra.trigger_and_receive_duration Scenario.keywords
                 Scenario.address
                 (Stytra.Reply
                    (Py.VDict {[ "duration"%string := Py.VInt 3 ]}))
                 Py.VNone [])
          = Py.Return (Some f).
Proof.
  split; [reflexivity|].
  apply (integer_reply_exact Scenario.keywords Scenario.address Py.VNone []
           3%Z).
  reflexivity.
Defined.

Lemma mode_off_never_fires_on_answering_peer :
  let fr := ExternalComm.enter Scenario.ungated in
  let out :=
    ExternalComm.run Scenario.clean_json Scenario.link
      [Scenario.pass [Scenario.some_settings] (Py.Return true) Cases.answers]
      fr in
  ExternalComm.scanning_trigger (ExternalComm.this fr) = false
  /\ ((exists st, fst out = Py.Return st)
      /\ Wired.link_calls (Wired.since fr (snd out)) = []
      /\ Wired.durations (Wired.since fr (snd out)) = []
      /\ Wired.clears (Wired.since fr (snd out)) = 0%nat).
Proof.
  cbv zeta. split; [reflexivity|].
  apply (mode_off_never_fires Py.value Scenario.clean_json Stytra.exchange
           Scenario.link
           [Scenario.pass [Scenario.some_settings] (Py.Return true)
              Cases.answers]
           (ExternalComm.enter Scenario.ungated)).
  reflexivity.
Defined.

Lemma untriggered_never_fires_on_restart :
  let fr := ExternalComm.enter Scenario.armed in
  let schedule := [Scenario.restarted Cases.answers] in
  let out :=
    ExternalComm.run Scenario.clean_json Scenario.link schedule fr in
  (ExternalComm.is_triggered_event (ExternalComm.this fr) = false
   /\ Forall (fun w => ExternalComm.write_triggered w <> Some true) schedule)
  /\ ((exists st, fst out = Py.Return st)
      /\ Wired.link_calls (Wired.since fr (snd out)) = []
      /\ Wired.durations (Wired.since fr (snd out)) = []
      /\ Wired.clears (Wired.since fr (snd out)) = 0%nat).
Proof.
  cbv zeta.
  assert (H : Forall (fun w : ExternalComm.world Py.value Stytra.exchange =>
                        ExternalComm.write_triggered w <> Some true)
                [Scenario.restarted Cases.answers])
    by (constructor; [discriminate|constructor]).
  split; [split; [reflexivity|exact H]|].
  apply (untriggered_never_fires Py.value Scenario.clean_json Stytra.exchange
           Scenario.link [Scenario.restarted Cases.answers]
           (ExternalComm.enter Scenario.armed) eq_refl H).
Defined.

Lemma start_pulse_not_reused_after_answer :
  let w := Scenario.pass [] (Py.Return true) Cases.answers in
  let fr := Scenario.ready [Scenario.some_settings] in
  let fr1 := snd (ExternalComm.body Scenario.clean_json Scenario.link w fr) in
  let fr2 := ExternalComm.on_self (ExternalComm.others w) fr1 in
  (Wired.clears (Wired.since fr fr1) = 1%nat
   /\ ExternalComm.write_start w <> Some true)
  /\ (ExternalComm.start_comm (ExternalComm.this fr1) = false
      /\ fst (ExternalComm.body Scenario.clean_json Scenario.link w fr2)
         = Py.Return tt
      /\ Wired.link_calls
           (Wired.since fr2
              (snd (ExternalComm.body Scenario.clean_json Scenario.link
                      w fr2))) = []
      /\ Wired.durations
           (Wired.since fr2
              (snd (ExternalComm.body Scenario.clean_json Scenario.link
                      w fr2))) = []).
Proof.
  cbv zeta. split; [split; [reflexivity|discriminate]|].
  apply (start_pulse_not_reused Py.value Scenario.clean_json Stytra.exchange
           Scenario.link
           (Scenario.pass [] (Py.Return true) Cases.answers)
           (Scenario.pass [] (Py.Return true) Cases.answers)
           (Scenario.ready [Scenario.some_settings]));
    [reflexivity|discriminate].
Defined.

Lemma request_kept_without_settings_when_primed :
  let w := Scenario.pass [] (Py.Return true) Cases.answers in
  let d := ExternalComm.request Scenario.clean_json Scenario.some_settings in
  let out :=
    ExternalComm.body Scenario.clean_json Scenario.link w Cases.primed in
  (ExternalComm.current_settings_queue (ExternalComm.this Cases.primed) = []
   /\ ExternalComm.current_config Cases.primed = Some d)
  /\ (ExternalComm.current_config (snd out) = Some d
      /\ Forall (fun c => c = Py.VDict d)
           (Wired.link_calls (Wired.since Cases.primed (snd out)))
      /\ (forall e, fst out = Py.Raise e ->
          Scenario.link (ExternalComm.link_peer w) (Py.VDict d)
          = Py.Raise e)).
Proof.
  cbv zeta. split; [split; reflexivity|].
  apply (request_kept_without_settings Py.value Scenario.clean_json
           Stytra.exchange Scenario.link
           (Scenario.pass [] (Py.Return true) Cases.answers) Cases.primed
           (ExternalComm.request Scenario.clean_json Scenario.some_settings));
    reflexivity.
Defined.

Lemma run_ended_only_by_on_early_gate :
  let schedule := [Scenario.pass [] (Py.Return true) Stytra.NoReply] in
  let fr := ExternalComm.enter Scenario.armed in
  fst (ExternalComm.run Scenario.clean_json Scenario.link schedule fr)
  = Py.Raise Py.UnboundLocalError
  /\ ((Py.UnboundLocalError = Py.UnboundLocalError
       /\ ExternalComm.current_config fr = None)
      \/ exists w,
           In w schedule
           /\ (ExternalComm.link_peer w
               = Stytra.ConnectFails Py.UnboundLocalError
               \/ ExternalComm.link_peer w
                  = Stytra.SendFails Py.UnboundLocalError
               \/ (ExternalComm.link_peer w = Stytra.Undecodable
                   /\ Py.UnboundLocalError = Py.JSONDecodeError)
               \/ ExternalComm.link_peer w
                  = Stytra.Unreadable Py.UnboundLocalError
               \/ ((exists s, ExternalComm.link_peer w
                               = Stytra.Unprintable s)
                   /\ Py.UnboundLocalError = Py.UnicodeEncodeError))).
Proof.
  cbv zeta. split; [reflexivity|].
  apply (run_ended_only_by Scenario.keywords Scenario.address Py.value
           Scenario.clean_json
           [Scenario.pass [] (Py.Return true) Stytra.NoReply]
           (ExternalComm.enter Scenario.armed) Py.UnboundLocalError).
  reflexivity.
Defined.

Lemma undelivered_request_hangs_run_without_peer :
  let w := Scenario.pass [Scenario.some_settings] (Py.Return true)
             Stytra.Undelivered in
  let later := [Scenario.restarted Cases.answers] in
  let fr := ExternalComm.enter Scenario.armed in
  let d := ExternalComm.request Scenario.clean_json Scenario.some_settings in
  let fr' := ExternalComm.on_self (ExternalComm.others w)
               (snd (ExternalComm.log_message ExternalComm.Started fr)) in
  let out := ExternalComm.run Scenario.clean_json Scenario.link (w :: later)
               fr in
  (ExternalComm.stop_event (ExternalComm.this fr') = false
   /\ ExternalComm.scanning_trigger (ExternalComm.this fr')
      && Wired.gate (ExternalComm.this fr') = true
   /\ ExternalComm.confirmed w fr' = true
   /\ ExternalComm.current_config
        (ExternalComm.drain Scenario.clean_json
           (ExternalComm.current_settings_queue (ExternalComm.this fr')) fr')
      = Some d
   /\ ExternalComm.link_peer w = Stytra.Undelivered)
  /\ (fst out = Py.Blocks
      /\ Trace.protocol (Wired.since fr (snd out))
         = [ExternalComm.LinkCall (Py.VDict d)]
      /\ Trace.tally Trace.is_close_log (Wired.since fr (snd out)) = 0%nat
      /\ Wired.signals (ExternalComm.this (snd out))
         = Wired.signals
             (ExternalComm.meanwhile w (ExternalComm.this fr'))).
Proof.
  cbv zeta. split; [repeat split; reflexivity|].
  apply (undelivered_request_hangs_run Scenario.keywords Scenario.address
           Py.value Scenario.clean_json
           (Scenario.pass [Scenario.some_settings] (Py.Return true)
              Stytra.Undelivered)
           [Scenario.restarted Cases.answers]
           (ExternalComm.enter Scenario.armed)
           (ExternalComm.request Scenario.clean_json Scenario.some_settings));
    reflexivity.
Defined.

Lemma run_survives_answering_peers_when_primed :
  let schedule :=
    [Scenario.pass [] (Py.Return true) Cases.answers;
     Scenario.restarted Stytra.NoReply] in
  Forall (fun w => ExternalComm.link_peer w = Stytra.NoReply
                   \/ exists body,
                        ExternalComm.link_peer w = Stytra.Reply body) schedule
  /\ exists st,
       fst (ExternalComm.run Scenario.clean_json Scenario.link schedule
              Cases.primed) = Py.Return st.
Proof.
  cbv zeta.
  assert (H : Forall
                (fun w : ExternalComm.world Py.value Stytra.exchange =>
                   ExternalComm.link_peer w = Stytra.NoReply
                   \/ exists body,
                        ExternalComm.link_peer w = Stytra.Reply body)
                [Scenario.pass [] (Py.Return true) Cases.answers;
                 Scenario.restarted Stytra.NoReply]).
  { constructor; [right; eexists; reflexivity|].
    constructor; [left; reflexivity|constructor]. }
  split; [exact H|].
  apply (run_survives_answering_peers Scenario.keywords Scenario.address
           Py.value Scenario.clean_json _ Cases.primed
           (ExternalComm.request Scenario.clean_json Scenario.some_settings)
           eq_refl H).
Defined.

Lemma get_text_name_first_match_external :
  Forall (fun item : string * Z => snd item <> 2%Z) [("INTERNAL"%string, 1%Z)]
  /\ CameraScripts.get_text_name pretty 2%Z CameraScripts.trigger_source_text
     = "EXTERNAL"%string
  /\ CameraScripts.get_text_name pretty 2%Z [("INTERNAL"%string, 1%Z)]
     = "<unknown:2>"%string.
Proof.
  assert (H : Forall (fun item : string * Z => snd item <> 2%Z)
                [("INTERNAL"%string, 1%Z)])
    by (constructor; [discriminate|constructor]).
  split; [exact H|].
  exact (get_text_name_first_match pretty 2%Z [("INTERNAL"%string, 1%Z)]
           [("SOFTWARE"%string, 3%Z)] "EXTERNAL"%string H).
Defined.

Lemma get_text_name_sound_external :
  (exists name, In (name, 2%Z) CameraScripts.trigger_source_text)
  /\ In (CameraScripts.get_text_name pretty 2%Z
           CameraScripts.trigger_source_text, 2%Z)
       CameraScripts.trigger_source_text.
Proof.
  assert (H : exists name, In (name, 2%Z) CameraScripts.trigger_source_text)
    by (exists "EXTERNAL"%string; right; left; reflexivity).
  split; [exact H|].
  exact (get_text_name_sound pretty 2%Z CameraScripts.trigger_source_text H).
Defined.
